(** * claude-tree: tree construction and pruning, edge merging, path weights

    A shallow embedding of the three scripts of the repository
    - [tree.py]        (module [Tree]),
    - [merge_edges.py] (module [MergeEdges]),
    - the aggregation and threshold code of [visualize.py] (module [Visualize]),
    followed by the properties of the specification, stated and proved
    over these definitions. *)

From Stdlib Require Import ZArith Ascii String List Bool Lia.
From stdpp Require Import base option list strings gmap pretty sorting.

Set Warnings "-register-all".

Local Open Scope string_scope.
Local Open Scope list_scope.

(** ** Strings *)

(** [str.lower()] / [toLowerCase()], on the ASCII letters. *)
Definition lower_ascii (c : ascii) : ascii :=
  let n := nat_of_ascii c in
  if (65 <=? n)%nat && (n <=? 90)%nat then ascii_of_nat (n + 32) else c.

Fixpoint lower (s : string) : string :=
  match s with
  | EmptyString => EmptyString
  | String c r => String (lower_ascii c) (lower r)
  end.

(** [s.startswith(p)] *)
Definition startswith (p s : string) : bool := String.prefix p s.

(** ** Sorting by name

    [sorted(...)] over directory entries: a stable insertion sort on a string
    key, compared by code units as Python compares [str]. *)
Section SortBy.
Context {A : Type} (key : A -> string).

Fixpoint insert_by (x : A) (l : list A) : list A :=
  match l with
  | [] => [x]
  | y :: l' => if String.leb (key x) (key y) then x :: y :: l'
               else y :: insert_by x l'
  end.

Fixpoint sort_by (l : list A) : list A :=
  match l with
  | [] => []
  | x :: l' => insert_by x (sort_by l')
  end.

(** Ascending order of the keys. *)
Definition key_le (x y : A) : Prop := String.leb (key x) (key y) = true.
End SortBy.

(** ** tree.py *)
Module Tree.

Definition AGENT_DOC_PATTERNS : gset string :=
  {[ "CLAUDE.md"; "AGENTS.md"; "claude.md"; "agents.md" ]}.

Definition SKIP_DIRS : gset string :=
  {[ "node_modules"; ".git"; "__pycache__"; ".venv"; "venv"; ".tox";
     "dist"; "build"; ".next"; ".nuxt"; ".cache"; "coverage";
     ".nyc_output"; "target"; ".idea"; ".vscode"; ".claude";
     "claude-tree" ]}.

Definition SKIP_EXTENSIONS : gset string :=
  {[ ".png"; ".jpg"; ".jpeg"; ".gif"; ".ico"; ".svg";
     ".woff"; ".woff2"; ".ttf"; ".eot";
     ".pdf"; ".zip"; ".tar"; ".gz"; ".rar";
     ".exe"; ".dll"; ".so"; ".dylib";
     ".pyc"; ".pyo"; ".class";
     ".db"; ".sqlite"; ".sqlite3";
     ".lock"; ".sum" ]}.

(** The tokenizer is external: [tokenizer.encode] maps text to token ids. *)
Definition Tokenizer := string -> list Z.

Definition count_tokens (content : string) (tokenizer : Tokenizer) : Z :=
  Z.of_nat (length (tokenizer content)).

Definition is_agent_doc (filename : string) : bool :=
  bool_decide (filename ∈ AGENT_DOC_PATTERNS).

(** [os.path.splitext(p)[1]] for a path without separators: the extension
    starts at the last dot, unless only dots come before it. *)
Fixpoint rfind_dot (p : string) : option nat :=
  match p with
  | EmptyString => None
  | String c r =>
      match rfind_dot r with
      | Some k => Some (S k)
      | None => if Ascii.eqb c "." then Some 0%nat else None
      end
  end.

Fixpoint only_dots (p : string) : bool :=
  match p with
  | EmptyString => true
  | String c r => Ascii.eqb c "." && only_dots r
  end.

Definition splitext_ext (p : string) : string :=
  match rfind_dot p with
  | Some dotIndex =>
      if only_dots (substring 0 dotIndex p) then ""
      else substring dotIndex (String.length p - dotIndex) p
  | None => ""
  end.

Definition should_skip_file (filename : string) : bool :=
  let ext := splitext_ext (lower filename) in
  bool_decide (ext ∈ SKIP_EXTENSIONS).

(** *** Nodes

    A node is the dict built by [process_directory]: file nodes have no
    ["children"] key, directory nodes have one.  [isAgentDoc] is the value
    of [node.get("isAgentDoc")] (absent reads as false), [tokens] the
    optional ["tokens"] entry.  A directory whose ["children"] key is
    absent reads as one with no children ([node.get("children", [])]). *)
Inductive Node : Type :=
| FileNode (name path : string) (isAgentDoc : bool) (tokens : option Z)
| DirNode (name path : string) (children : list Node)
          (isAgentDoc : bool) (tokens : option Z).

Inductive NodeType := directory | file.

Definition type (n : Node) : NodeType :=
  match n with FileNode _ _ _ _ => file | DirNode _ _ _ _ _ => directory end.
Definition name (n : Node) : string :=
  match n with FileNode x _ _ _ => x | DirNode x _ _ _ _ => x end.
Definition path (n : Node) : string :=
  match n with FileNode _ p _ _ => p | DirNode _ p _ _ _ => p end.
Definition isAgentDoc (n : Node) : bool :=
  match n with FileNode _ _ d _ => d | DirNode _ _ _ d _ => d end.
Definition tokens (n : Node) : option Z :=
  match n with FileNode _ _ _ t => t | DirNode _ _ _ _ t => t end.
Definition children (n : Node) : list Node :=
  match n with FileNode _ _ _ _ => [] | DirNode _ _ c _ _ => c end.

(** *** The file system seen by [build_tree]

    A directory is its listing, [None] when [os.listdir] raises
    [PermissionError]; an entry is a directory, a regular file (its text,
    [None] when [read_text] raises), or something that is neither
    ([is_dir] and [is_file] both false). *)
Inductive Dir : Type :=
| MkDir (listing : option (list (string * Entry)))
with Entry : Type :=
| EDir (d : Dir)
| EFile (content : option string)
| EOther.

(** [str(Path(rel_path) / entry) if rel_path else entry] *)
Definition entry_rel_path (rel_path entry : string) : string :=
  if String.eqb rel_path "" then entry
  else if String.eqb rel_path "." then entry
  else rel_path +:+ "/" +:+ entry.

Definition file_node (tokenizer : Tokenizer) (entry rel : string)
    (content : option string) : Node :=
  if is_agent_doc entry then
    FileNode entry rel true
      (Some match content with
            | Some text => count_tokens text tokenizer
            | None => 0%Z
            end)
  else FileNode entry rel false None.

Section BuildTree.
Variable tokenizer : Tokenizer.
Variable root_name : string.

(** The body of [for entry in entries], for the entry [e] of the
    directory at [rel_path]: the node appended to [node["children"]],
    or [None] when the entry is skipped.  [process] is the recursive
    call. *)
Definition visit (process : string -> Dir -> string -> Node)
    (rel_path : string) (e : string * Entry) : string * option Node :=
  let entry := e.1 in
  let rel := entry_rel_path rel_path entry in
  (entry,
   match e.2 with
   | EDir d =>
       if bool_decide (entry ∈ SKIP_DIRS) then None
       else if startswith "." entry
               && negb (String.eqb entry ".claude") then None
       else
         let child_node := process entry d rel in
         match children child_node with
         | [] => None
         | _ :: _ => Some child_node
         end
   | EFile content =>
       if should_skip_file entry then None
       else Some (file_node tokenizer entry rel content)
   | EOther => None
   end).

(** The loop body is run on every entry; the outcomes are then put in
    the order of [sorted(os.listdir(dir_path))]. *)
Fixpoint process_directory (dir_name : string) (dir : Dir)
    (rel_path : string) {struct dir} : Node :=
  let name := if String.eqb dir_name "" then root_name else dir_name in
  match dir with
  | MkDir None => DirNode name rel_path [] false None
  | MkDir (Some entries) =>
      DirNode name rel_path
        (omap snd
           (sort_by fst (map (visit process_directory rel_path) entries)))
        false None
  end.
End BuildTree.

(** [root_name = root_path.name or "root"] *)
Definition build_tree (root_path_name : string) (root : Dir)
    (tokenizer : Tokenizer) : Node :=
  let root_name :=
    if String.eqb root_path_name "" then "root" else root_path_name in
  process_directory tokenizer root_name root_path_name root ".".

Fixpoint has_agent_doc (node : Node) : bool :=
  if isAgentDoc node then true
  else match node with
       | DirNode _ _ children _ _ => existsb has_agent_doc children
       | FileNode _ _ _ _ => false
       end.

Fixpoint filter_node (node : Node) (include_all_files : bool)
    : option Node :=
  match node with
  | FileNode _ _ _ _ =>
      if isAgentDoc node then Some node
      else if include_all_files then Some node
      else None
  | DirNode name path children d t =>
      let should_include_all := has_agent_doc node in
      let filtered_children :=
        omap (fun child => filter_node child should_include_all) children in
      if negb (bool_decide (filtered_children = []))
         || has_agent_doc node
      then Some (DirNode name path filtered_children d t)
      else None
  end.

(** [filter_node(tree) or tree] *)
Definition filter_tree_to_agent_docs (tree : Node) : Node :=
  match filter_node tree false with
  | Some filtered => filtered
  | None => tree
  end.

(** *** Vocabulary of the properties of the filter *)

(** Every node of a tree, the root first. *)
Fixpoint all_nodes (node : Node) : list Node :=
  node :: match node with
          | DirNode _ _ children _ _ => flat_map all_nodes children
          | FileNode _ _ _ _ => []
          end.

(** The set of the paths of a tree. *)
Definition path_set (tree : Node) : gset string :=
  list_to_set (map path (all_nodes tree)).

(** [x'] is the node [x] again: same kind, name, path, flag and tokens
    (the children of a directory may have been filtered). *)
Definition same_node (x x' : Node) : Prop :=
  type x' = type x /\ name x' = name x /\ path x' = path x
  /\ isAgentDoc x' = isAgentDoc x /\ tokens x' = tokens x.

(** Every agent doc of [tree] is present in [filtered]. *)
Definition agent_docs_kept (tree filtered : Node) : Prop :=
  forall x, x ∈ all_nodes tree -> isAgentDoc x = true ->
    exists x', x' ∈ all_nodes filtered /\ same_node x x'.

(** No directory of [filtered] lacks both a child and an agent doc in its
    subtree. *)
Definition directories_justified (filtered : Node) : Prop :=
  forall d, d ∈ all_nodes filtered -> type d = directory ->
    children d <> [] \/ has_agent_doc d = true.

(** The empty project: a root directory with no entry. *)
Definition empty_project : Node := DirNode "project" "." [] false None.

(** A project with a root document and a documented subdirectory. *)
Definition sample_project : Node :=
  DirNode "project" "."
    [ FileNode "CLAUDE.md" "CLAUDE.md" true (Some 500%Z);
      FileNode "README.md" "README.md" false None;
      DirNode "docs" "docs"
        [ FileNode "guide.txt" "docs/guide.txt" false None ] false None;
      DirNode "src" "src"
        [ FileNode "AGENTS.md" "src/AGENTS.md" true (Some 1200%Z);
          FileNode "main.py" "src/main.py" false None ] false None ]
    false None.

(** A project whose [.claude] directory holds an instruction file. *)
Definition project_with_dot_claude : Dir :=
  MkDir (Some
    [ ("src", EDir (MkDir (Some [ ("main.py", EFile (Some "pass")) ])));
      (".claude",
       EDir (MkDir (Some [ ("CLAUDE.md", EFile (Some "house rules")) ]))) ]).

(** The same project with the directory named [config]. *)
Definition project_with_config : Dir :=
  MkDir (Some
    [ ("src", EDir (MkDir (Some [ ("main.py", EFile (Some "pass")) ])));
      ("config",
       EDir (MkDir (Some [ ("CLAUDE.md", EFile (Some "house rules")) ]))) ]).

(** Filter soundness as the specification words it, for one tree. *)
Definition filter_sound (tree : Node) : Prop :=
  agent_docs_kept tree (filter_tree_to_agent_docs tree)
  /\ directories_justified (filter_tree_to_agent_docs tree).

(** *** The summary of agent docs and the command

    An entry [{"path": ..., "tokens": ...}] of the flat list. *)
Record AgentDoc : Type := { doc_path : string; doc_tokens : Z }.

(** [walk] appends the entry of a flagged node, then visits
    [node.get("children", [])] in order; [node.get("tokens", 0)] reads a
    missing count as 0. *)
Fixpoint collect_agent_docs (tree : Node) : list AgentDoc :=
  (if isAgentDoc tree
   then [ {| doc_path := path tree;
             doc_tokens := match tokens tree with
                           | Some t => t
                           | None => 0%Z
                           end |} ]
   else [])
  ++ match tree with
     | DirNode _ _ children _ _ => flat_map collect_agent_docs children
     | FileNode _ _ _ _ => []
     end.

(** The [output] dict of [main]. *)
Record Output : Type := {
  root : string;
  tree : Node;
  agentDocs : list AgentDoc;
  totalAgentDocs : nat;
  totalTokens : Z
}.

(** What [main] finds at the resolved [root_path]: nothing, something that
    is not a directory, or a directory (with [root_path.name]). *)
Inductive RootPath : Type :=
| Missing
| NotADirectory
| Directory (root_path_name : string) (dir : Dir).

(** Where the JSON text went: the [--output] file or standard output. *)
Inductive Destination : Type :=
| ToFile (output : string)
| ToStdout.

Record Run : Type := {
  exit_code : nat;
  emitted : option (Destination * Output);
  stderr : list string
}.

Definition newline : string := String (ascii_of_nat 10) "".

Definition main (root_path : string) (at_root : RootPath)
    (output : option string) (full_tree : bool) (tokenizer : Tokenizer)
    : Run :=
  match at_root with
  | Missing =>
      {| exit_code := 1; emitted := None;
         stderr := ["Error: Path does not exist: " +:+ root_path] |}
  | NotADirectory =>
      {| exit_code := 1; emitted := None;
         stderr := ["Error: Path is not a directory: " +:+ root_path] |}
  | Directory root_path_name dir =>
      let tree := build_tree root_path_name dir tokenizer in
      let tree := if full_tree then tree else filter_tree_to_agent_docs tree in
      let agent_docs := collect_agent_docs tree in
      let out :=
        {| root := root_path;
           tree := tree;
           agentDocs := agent_docs;
           totalAgentDocs := length agent_docs;
           totalTokens := foldr Z.add 0%Z (map doc_tokens agent_docs) |} in
      let listing :=
        (newline +:+ "Agent docs found:")
        :: match agent_docs with
           | [] => ["  (none)"]
           | _ :: _ =>
               map (fun doc => "  " +:+ doc_path doc +:+ " ("
                               +:+ pretty (doc_tokens doc) +:+ " tokens)")
                   agent_docs
           end in
      let high_token :=
        List.filter (fun d => (1500 <? doc_tokens d)%Z) agent_docs in
      let warnings :=
        match high_token with
        | [] => []
        | _ :: _ =>
            (newline +:+ "Warning: " +:+ pretty (length high_token)
             +:+ " file(s) exceed 1500 token budget:")
            :: map (fun f => "  " +:+ doc_path f +:+ ": "
                             +:+ pretty (doc_tokens f) +:+ " tokens")
                   high_token
        end in
      match output with
      | Some output_file =>
          {| exit_code := 0; emitted := Some (ToFile output_file, out);
             stderr := listing ++ warnings
                       ++ [newline +:+ "Tree written to " +:+ output_file] |}
      | None =>
          {| exit_code := 0; emitted := Some (ToStdout, out);
             stderr := listing ++ warnings |}
      end
  end.

(** Every entry name of a directory, at every depth, is non-empty, as the
    names returned by [os.listdir] are. *)
Fixpoint names_nonempty (dir : Dir) : Prop :=
  match dir with
  | MkDir None => True
  | MkDir (Some entries) =>
      foldr (fun e rest =>
               e.1 <> ""
               /\ match e.2 with
                  | EDir d => names_nonempty d
                  | _ => True
                  end
               /\ rest) True entries
  end.

(** A project with documents at two levels, a hidden directory, a binary
    file, an empty directory and an unreadable one. *)
Definition sample_dir : Dir :=
  MkDir (Some
    [ ("src",
       EDir (MkDir (Some
         [ ("main.py", EFile (Some "print(1)"));
           ("AGENTS.md", EFile (Some "use type hints")) ])));
      ("logo.PNG", EFile None);
      (".github", EDir (MkDir (Some [ ("CLAUDE.md", EFile (Some "ci")) ])));
      ("empty", EDir (MkDir (Some [])));
      ("locked", EDir (MkDir None));
      ("notes", EDir (MkDir (Some [ ("todo.txt", EFile (Some "x")) ])));
      ("CLAUDE.md", EFile (Some "be brief")) ]).

End Tree.

(** ** merge_edges.py *)
Module MergeEdges.

(** The value returned by [json.loads].  An object is the loaded [dict]:
    its members in insertion order, keys distinct. *)
Inductive JSON : Type :=
| JNull
| JBool (b : bool)
| JNumber (n : Z)
| JString (s : string)
| JArray (items : list JSON)
| JObject (members : list (string * JSON)).

(** [d.get(k)] and [k in d] *)
Fixpoint dict_get {V : Type} (k : string) (d : list (string * V))
    : option V :=
  match d with
  | [] => None
  | (k', v) :: d' => if String.eqb k k' then Some v else dict_get k d'
  end.

Definition dict_has {V : Type} (k : string) (d : list (string * V)) : bool :=
  match dict_get k d with Some _ => true | None => false end.

(** [d[k] = v]: replaces the value of an existing key in place, appends a
    new key. *)
Fixpoint dict_set {V : Type} (k : string) (v : V) (d : list (string * V))
    : list (string * V) :=
  match d with
  | [] => [(k, v)]
  | (k', v') :: d' =>
      if String.eqb k k' then (k, v) :: d' else (k', v') :: dict_set k v d'
  end.

(** What [validate_edge_file] finds at [file_path]: [read_text] raises,
    [json.loads] raises [JSONDecodeError], or the text loads to a value.
    The string is the text of the exception. *)
Inductive EdgeFile : Type :=
| Unreadable (e : string)
| NotJSON (e : string)
| Loaded (data : JSON).

(** [edge.get("type") not in ("agent-doc", "file", "directory")] *)
Definition type_not_allowed (t : JSON) : bool :=
  match t with
  | JString s =>
      negb (String.eqb s "agent-doc" || String.eqb s "file"
            || String.eqb s "directory")
  | _ => true
  end.

(** The body of the loop over [enumerate(data["edges"])]. *)
Definition edge_errors (i : nat) (edge : JSON) : list string :=
  match edge with
  | JObject e =>
      (if dict_has "source" e then []
       else ["Edge " +:+ pretty i +:+ ": missing 'source'"])
      ++ (if dict_has "target" e then []
          else ["Edge " +:+ pretty i +:+ ": missing 'target'"])
      ++ match dict_get "type" e with
         | None => ["Edge " +:+ pretty i +:+ ": missing 'type'"]
         | Some t =>
             if type_not_allowed t
             then ["Edge " +:+ pretty i
                   +:+ ": 'type' must be 'agent-doc', 'file', or 'directory'"]
             else []
         end
  | _ => ["Edge " +:+ pretty i +:+ ": must be an object"]
  end.

Fixpoint edges_errors (i : nat) (edges : list JSON) : list string :=
  match edges with
  | [] => []
  | edge :: rest => edge_errors i edge ++ edges_errors (S i) rest
  end.

Definition validate_edge_file (file : EdgeFile)
    : option JSON * list string :=
  match file with
  | Unreadable e => (None, ["Could not read file: " +:+ e])
  | NotJSON e => (None, ["Invalid JSON: " +:+ e])
  | Loaded data =>
      match data with
      | JObject d =>
          let errors :=
            match dict_get "source" d with
            | None => ["Missing 'source' field"]
            | Some (JString _) => []
            | Some _ => ["'source' must be a string"]
            end
            ++ match dict_get "edges" d with
               | None => ["Missing 'edges' field"]
               | Some (JArray edges) => edges_errors 0 edges
               | Some _ => ["'edges' must be an array"]
               end in
          match errors with
          | [] => (Some data, [])
          | _ :: _ => (None, errors)
          end
      | _ => (None, ["Root must be an object"])
      end
  end.

Record Summary : Type := {
  files_processed : nat;
  files_valid : nat;
  files_invalid : nat;
  total_edges : nat;
  validation_errors : list (string * list string)
}.

(** The state of the loop of [merge_edge_files]; [stderr] collects the
    lines printed to [sys.stderr]. *)
Record MergeState : Type := {
  merged_edges : list JSON;
  summary : Summary;
  stderr : list string
}.

Definition merge_init : MergeState :=
  {| merged_edges := [];
     summary := {| files_processed := 0; files_valid := 0;
                   files_invalid := 0; total_edges := 0;
                   validation_errors := [] |};
     stderr := [] |}.

(** [data.get("edges", [])] on the validated record. *)
Definition data_edges (data : option JSON) : list JSON :=
  match data with
  | Some (JObject d) =>
      match dict_get "edges" d with
      | Some (JArray edges) => edges
      | _ => []
      end
  | _ => []
  end.

(** One iteration of [for file_path in json_files]. *)
Definition merge_step (validate verbose : bool) (st : MergeState)
    (file : string * EdgeFile) : MergeState :=
  let '(file_name, content) := file in
  let s := summary st in
  let err1 :=
    stderr st ++ (if verbose then ["Processing: " +:+ file_name] else []) in
  let '(data, errors) := validate_edge_file content in
  match errors with
  | _ :: _ =>
      {| merged_edges := merged_edges st;
         summary :=
           {| files_processed := files_processed s + 1;
              files_valid := files_valid s;
              files_invalid := files_invalid s + 1;
              total_edges := total_edges s;
              validation_errors :=
                if validate
                then dict_set file_name errors (validation_errors s)
                else validation_errors s |};
         stderr :=
           err1 ++ (if verbose
                    then ["  -> INVALID (" +:+ pretty (length errors)
                          +:+ " errors)"]
                    else []) |}
  | [] =>
      let edges := data_edges data in
      {| merged_edges := merged_edges st ++ edges;
         summary :=
           {| files_processed := files_processed s + 1;
              files_valid := files_valid s + 1;
              files_invalid := files_invalid s;
              total_edges := total_edges s + length edges;
              validation_errors := validation_errors s |};
         stderr :=
           err1 ++ (if verbose
                    then ["  -> OK (" +:+ pretty (length edges) +:+ " edges)"]
                    else []) |}
  end.

(** [input_dir] is given by the files that match ["*.json"], each with
    what reading it yields; [sorted] puts them in file-name order. *)
Definition InputDir := list (string * EdgeFile).

Definition merge_loop (input_dir : InputDir) (validate verbose : bool)
    : MergeState :=
  let json_files := sort_by fst input_dir in
  fold_left (merge_step validate verbose) json_files merge_init.

(** Returns [(merged_data, summary)], with the lines sent to [sys.stderr]. *)
Definition merge_edge_files (input_dir : InputDir)
    (validate verbose : bool) : JSON * Summary * list string :=
  let st := merge_loop input_dir validate verbose in
  (JObject [("edges", JArray (merged_edges st))], summary st, stderr st).

Definition newline : string := String (ascii_of_nat 10) "".

(** What a run of [main] leaves behind: the exit status, the value whose
    JSON text was written to the output path (if any), and the lines on
    [sys.stderr]. *)
Record Outcome : Type := {
  exit_code : nat;
  written : option JSON;
  diagnostics : list string
}.

(** [input_dir] is [None] when [input_dir.is_dir()] is false. *)
Definition main (input_dir_arg output_arg : string)
    (input_dir : option InputDir) (validate verbose : bool) : Outcome :=
  match input_dir with
  | None =>
      {| exit_code := 1; written := None;
         diagnostics :=
           ["Error: Input directory does not exist: " +:+ input_dir_arg] |}
  | Some files =>
      let '(merged_data, summary, err) :=
        merge_edge_files files validate verbose in
      let report :=
        [ "Files processed: " +:+ pretty (files_processed summary);
          "Files valid: " +:+ pretty (files_valid summary);
          "Files invalid: " +:+ pretty (files_invalid summary);
          "Total edges: " +:+ pretty (total_edges summary);
          "Output written to: " +:+ output_arg ] in
      let details :=
        match validate, validation_errors summary with
        | true, (_ :: _) as ve =>
            (newline +:+ "Validation errors:")
            :: flat_map (fun '(filename, errors) =>
                           (newline +:+ "  " +:+ filename +:+ ":")
                           :: map (fun error => "    - " +:+ error) errors)
                        ve
        | _, _ => []
        end in
      {| exit_code := if (0 <? files_invalid summary)%nat then 1 else 0;
         written := Some merged_data;
         diagnostics := err ++ report ++ details |}
  end.

(** *** Vocabulary of the properties of the merge

    Structural validity in the words of the specification: the root is an
    object with a string field [source] and an array field [edges], and
    each element of the array is an object containing [source], [target]
    and a [type] that is one of the three enumerants. *)
Definition EDGE_TYPES : list string := ["agent-doc"; "file"; "directory"].

Definition edge_ok (edge : JSON) : bool :=
  match edge with
  | JObject e =>
      dict_has "source" e && dict_has "target" e
      && match dict_get "type" e with
         | Some (JString t) => bool_decide (t ∈ EDGE_TYPES)
         | _ => false
         end
  | _ => false
  end.

Definition record_ok (data : JSON) : bool :=
  match data with
  | JObject d =>
      match dict_get "source" d, dict_get "edges" d with
      | Some (JString _), Some (JArray edges) => forallb edge_ok edges
      | _, _ => false
      end
  | _ => false
  end.

Definition structurally_valid (file : EdgeFile) : bool :=
  match file with
  | Loaded data => record_ok data
  | _ => false
  end.

(** The edge list of a record. *)
Definition record_edges (file : EdgeFile) : list JSON :=
  match file with
  | Loaded data => data_edges (Some data)
  | _ => []
  end.

(** What one input file adds to the merged list. *)
Definition contribution (file : string * EdgeFile) : list JSON :=
  if structurally_valid file.2 then record_edges file.2 else [].

(** The merged edges of files taken in the given order. *)
Definition edges_of (files : list (string * EdgeFile)) : list JSON :=
  flat_map contribution files.

(** The number of structurally valid, and of invalid, files. *)
Definition count_valid (files : list (string * EdgeFile)) : nat :=
  sum_list_with
    (fun file => if structurally_valid file.2 then 1 else 0) files.

Definition count_invalid (files : list (string * EdgeFile)) : nat :=
  sum_list_with
    (fun file => if structurally_valid file.2 then 0 else 1) files.

(** The field is not a key of the edge. *)
Definition field_missing (field : string) (edge : JSON) : bool :=
  match edge with
  | JObject e => negb (dict_has field e)
  | _ => false
  end.

(** The field is not a key of the edge, or its value is the empty string. *)
Definition field_blank (field : string) (edge : JSON) : bool :=
  match edge with
  | JObject e =>
      match dict_get field e with
      | None => true
      | Some (JString v) => String.eqb v ""
      | Some _ => false
      end
  | _ => false
  end.

(** Edge field validation as the specification words it, for one record:
    an edge with a blank [source] or [target] makes the record fail. *)
Definition rejects_blank_fields (data : JSON) : Prop :=
  forall edge, edge ∈ record_edges (Loaded data) ->
    field_blank "source" edge || field_blank "target" edge = true ->
    (validate_edge_file (Loaded data)).2 <> [].

(** An edge whose [source] and [target] are empty strings, and a record
    that holds it. *)
Definition blank_edge : JSON :=
  JObject [("source", JString ""); ("target", JString "");
           ("type", JString "file")].

Definition blank_record : JSON :=
  JObject [("source", JString "docs/CLAUDE.md");
           ("edges", JArray [blank_edge])].

(** A well-formed edge and records around it. *)
Definition sample_edge (target : string) : JSON :=
  JObject [("source", JString "CLAUDE.md"); ("target", JString target);
           ("type", JString "file")].

Definition sample_record (targets : list string) : JSON :=
  JObject [("source", JString "CLAUDE.md");
           ("edges", JArray (map sample_edge targets))].

(** An edge that has no [target], and a record that holds it. *)
Definition edge_without_target : JSON :=
  JObject [("source", JString "CLAUDE.md"); ("type", JString "file")].

Definition record_missing_target : JSON :=
  JObject [("source", JString "CLAUDE.md");
           ("edges", JArray [edge_without_target])].

(** A record without the [edges] field. *)
Definition record_missing_edges : JSON :=
  JObject [("source", JString "CLAUDE.md")].

(** Three valid files, listed out of order. *)
Definition sample_dir : InputDir :=
  [ ("b.json", Loaded (sample_record ["src/b.py"]));
    ("c.json", Loaded (sample_record []));
    ("a.json", Loaded (sample_record ["src/a.py"; "docs/setup.md"])) ].

(** The members of a record with one good edge and two bad ones. *)
Definition mixed_edges : list JSON :=
  [sample_edge "src/a.py"; JNull; edge_without_target].

Definition mixed_members : list (string * JSON) :=
  [("source", JString "CLAUDE.md"); ("edges", JArray mixed_edges)].

End MergeEdges.

(** ** visualize.py: cumulative tokens and token thresholds

    The script embedded in the generated page.  JavaScript numbers are
    integers here; token counts and thresholds stay far below the range
    where a double stops being exact. *)
Module Visualize.

(** [s.split('/')] *)
Fixpoint split_slash (s : string) : list string :=
  match s with
  | EmptyString => [""]
  | String c r =>
      if Ascii.eqb c "/" then "" :: split_slash r
      else match split_slash r with
           | [] => [String c ""]
           | seg :: segs => String c seg :: segs
           end
  end.

(** [activeDocTypeFilter] is ['all'], ['claude'] or ['agents']. *)
Definition matchesDocTypeFilter (activeDocTypeFilter path : string) : bool :=
  if String.eqb activeDocTypeFilter "all" then true
  else
    let filename := lower (List.last (split_slash path) "") in
    if String.eqb activeDocTypeFilter "claude"
    then String.eqb filename "claude.md"
    else if String.eqb activeDocTypeFilter "agents"
    then String.eqb filename "agents.md"
    else true.

(** The value [{ total, breakdown }]. *)
Record Cumulative : Type := {
  total : Z;
  breakdown : list (string * Z)
}.

Section Aggregation.
(** [agentDocTokens], the [Map] filled by [indexTree], and the filter. *)
Variable agentDocTokens : gmap string Z.
Variable activeDocTypeFilter : string.

(** [if (agentDocTokens.has(p) && matchesDocTypeFilter(p))] *)
Definition counted (p : string) : option Z :=
  match agentDocTokens !! p with
  | Some tokens =>
      if matchesDocTypeFilter activeDocTypeFilter p then Some tokens
      else None
  | None => None
  end.

(** [total += tokens; breakdown.push({ file, tokens })] *)
Definition push (file : string) (tokens : Z) (acc : Cumulative)
    : Cumulative :=
  {| total := total acc + tokens;
     breakdown := breakdown acc ++ [(file, tokens)] |}.

(** [for (const rootPath of rootPaths) { if (...) { ...; break; } }] *)
Fixpoint add_first (rootPaths : list string) (acc : Cumulative)
    : Cumulative :=
  match rootPaths with
  | [] => acc
  | rootPath :: rest =>
      match counted rootPath with
      | Some tokens => push rootPath tokens acc
      | None => add_first rest acc
      end
  end.

Definition add_root (acc : Cumulative) (docName : string) : Cumulative :=
  add_first ["./" +:+ docName; docName] acc.

Definition add_counted (p : string) (acc : Cumulative) : Cumulative :=
  match counted p with
  | Some tokens => push p tokens acc
  | None => acc
  end.

(** One iteration of the walk down the path; the state is
    [currentPath] with the running [{ total, breakdown }]. *)
Definition walk_step (st : string * Cumulative) (part : string)
    : string * Cumulative :=
  let '(currentPath, acc) := st in
  if String.eqb part "." then st
  else
    let currentPath :=
      if String.eqb currentPath "." then part
      else currentPath +:+ "/" +:+ part in
    let claudePath := currentPath +:+ "/CLAUDE.md" in
    let agentsPath := currentPath +:+ "/AGENTS.md" in
    (currentPath, add_counted agentsPath (add_counted claudePath acc)).

Definition getCumulativeTokens (path : string) : Cumulative :=
  let parts := if String.eqb path "." then ["."] else split_slash path in
  let at_root :=
    fold_left add_root ["CLAUDE.md"; "AGENTS.md"]
      {| total := 0; breakdown := [] |} in
  (fold_left walk_step parts (".", at_root)).2.
End Aggregation.

(** [tokenThresholds] *)
Record Thresholds : Type := { green : Z; yellow : Z }.

Definition getTokenColor (tokenThresholds : Thresholds) (tokens : Z)
    : string :=
  if (tokens <? green tokenThresholds)%Z then "var(--green)"
  else if (tokens <? yellow tokenThresholds)%Z then "var(--yellow)"
  else "var(--red)".

(** The part of the page [updateThresholds] works on.  An input field is
    given by what [parseInt] reads from its [value]: an integer, or [None]
    for [NaN].  Assigning a number to [value] stores its decimal text,
    which [parseInt] reads back as that number. *)
Record Page : Type := {
  threshold_green : option Z;
  threshold_yellow : option Z;
  tokenThresholds : Thresholds
}.

(** [parseInt(input.value) || d]: [NaN] and [0] are falsy. *)
Definition parseInt_or (value : option Z) (d : Z) : Z :=
  match value with
  | Some n => if (n =? 0)%Z then d else n
  | None => d
  end.

(** The page as loaded: both fields hold their [value] attribute. *)
Definition initial_page : Page :=
  {| threshold_green := Some 1000%Z;
     threshold_yellow := Some 2000%Z;
     tokenThresholds := {| green := 1000; yellow := 2000 |} |}.

Definition updateThresholds (pg : Page) : Page :=
  let greenInput := threshold_green pg in
  let yellowInput := threshold_yellow pg in
  let greenVal := parseInt_or greenInput 500 in
  let yellowVal := parseInt_or yellowInput 1500 in
  let yellowInput :=
    if (greenVal >=? yellowVal)%Z then Some (greenVal + 100)%Z
    else yellowInput in
  {| threshold_green := greenInput;
     threshold_yellow := yellowInput;
     tokenThresholds :=
       {| green := parseInt_or greenInput 500;
          yellow := parseInt_or yellowInput 1500 |} |}.

(** The user types into the two fields; every ['input'] event runs
    [updateThresholds]. *)
Definition edit (g y : option Z) (pg : Page) : Page :=
  updateThresholds
    {| threshold_green := g; threshold_yellow := y;
       tokenThresholds := tokenThresholds pg |}.

(** *** Vocabulary of the properties of the aggregation *)

(** Every token count of the index is non-negative, as [tree.py] writes
    them. *)
Definition tokens_nonneg (agentDocTokens : gmap string Z) : Prop :=
  map_Forall (fun _ tokens => (0 <= tokens)%Z) agentDocTokens.

(** [P] is an ancestor of [Q]: the root, or [Q] is [P] followed by ["/"]
    and further segments. *)
Definition is_ancestor (P Q : string) : Prop :=
  P = "." \/ exists rest, Q = P +:+ "/" +:+ rest.

(** The running result only grows: the total does not decrease and the
    breakdown is extended at its end. *)
Definition extends (acc acc' : Cumulative) : Prop :=
  (total acc <= total acc')%Z /\ breakdown acc `prefix_of` breakdown acc'.

(** The second scenario of the specification. *)
Definition scenario_index : gmap string Z :=
  <["a/CLAUDE.md" := 800%Z]> (<["a/b/AGENTS.md" := 1200%Z]> ∅).

(** The thresholds keep the order green below yellow. *)
Definition bands_ordered (th : Thresholds) : Prop :=
  (green th < yellow th)%Z.

(** One ['input'] event, whatever is typed. *)
Definition edit_step (pg pg' : Page) : Prop :=
  exists g y, pg' = edit g y pg.

(** *** The lookup maps

    [nodeByPath] and [agentDocTokens], filled by [indexTree] from the tree
    artifact written by [tree.py]. *)
Record Index : Type := {
  nodeByPath : gmap string Tree.Node;
  agentDocTokens : gmap string Z
}.

Definition empty_index : Index :=
  {| nodeByPath := ∅; agentDocTokens := ∅ |}.

(** [node.path || '.'] *)
Definition path_or_dot (node : Tree.Node) : string :=
  if String.eqb (Tree.path node) "" then "." else Tree.path node.

(** [node.tokens || 0] *)
Definition tokens_or_0 (node : Tree.Node) : Z :=
  match Tree.tokens node with
  | Some t => t
  | None => 0%Z
  end.

Fixpoint indexTree (node : Tree.Node) (ix : Index) : Index :=
  let path := path_or_dot node in
  let ix :=
    {| nodeByPath := <[path := node]> (nodeByPath ix);
       agentDocTokens :=
         if Tree.isAgentDoc node
         then <[path := tokens_or_0 node]> (agentDocTokens ix)
         else agentDocTokens ix |} in
  match node with
  | Tree.DirNode _ _ children _ _ =>
      fold_left (fun ix child => indexTree child ix) children ix
  | Tree.FileNode _ _ _ _ => ix
  end.

(** [if (TREE_DATA.tree) { indexTree(TREE_DATA.tree); }] *)
Definition page_index (tree : option Tree.Node) : Index :=
  match tree with
  | Some node => indexTree node empty_index
  | None => empty_index
  end.

(** *** The list of heaviest paths

    An item of [PATH_WEIGHTS_DATA.ranking], and of [recalculatedPaths]. *)
Record RankingItem : Type := { item_path : string; cumulativeTokens : Z }.

(** [.sort((a, b) => b.cumulativeTokens - a.cumulativeTokens)]: a stable
    sort, largest first. *)
Fixpoint insert_desc (x : RankingItem) (l : list RankingItem)
    : list RankingItem :=
  match l with
  | [] => [x]
  | y :: l' =>
      if (cumulativeTokens x <? cumulativeTokens y)%Z
      then y :: insert_desc x l'
      else x :: y :: l'
  end.

Definition sort_desc (l : list RankingItem) : list RankingItem :=
  foldr insert_desc [] l.

Definition recalculatedPaths (index : gmap string Z)
    (activeDocTypeFilter : string) (ranking : list RankingItem)
    : list RankingItem :=
  sort_desc
    (List.filter (fun item => (0 <? cumulativeTokens item)%Z)
       (map (fun item =>
               {| item_path := item_path item;
                  cumulativeTokens :=
                    total (getCumulativeTokens index activeDocTypeFilter
                             (item_path item)) |})
            ranking)).

(** A row of the rendered list. *)
Record Row : Type := {
  rank : nat;
  row_path : string;
  row_tokens : Z;
  row_color : string
}.

(** What [renderHeaviestPaths] leaves in the page: the section hidden, a
    message, or the rows of the top paths. *)
Inductive HeaviestPaths : Type :=
| SectionHidden
| FilterMessage (filterMsg : string)
| TopPaths (rows : list Row).

(** [ranking] is [None] when [PATH_WEIGHTS_DATA] is null or has no
    [ranking]. *)
Definition renderHeaviestPaths (index : gmap string Z)
    (activeDocTypeFilter : string) (tokenThresholds : Thresholds)
    (ranking : option (list RankingItem)) : HeaviestPaths :=
  match ranking with
  | None | Some [] => SectionHidden
  | Some ranking =>
      match recalculatedPaths index activeDocTypeFilter ranking with
      | [] =>
          FilterMessage
            (if String.eqb activeDocTypeFilter "all"
             then "No paths with agent docs"
             else "No paths with "
                  +:+ (if String.eqb activeDocTypeFilter "claude"
                       then "CLAUDE.md" else "AGENTS.md")
                  +:+ " files")
      | recalculated =>
          let topPaths := take 10 recalculated in
          TopPaths
            (imap (fun index item =>
                     {| rank := index + 1;
                        row_path := item_path item;
                        row_tokens := cumulativeTokens item;
                        row_color :=
                          getTokenColor tokenThresholds
                            (cumulativeTokens item) |})
                  topPaths)
      end
  end.

(** The total is the sum of the breakdown, and every entry of the
    breakdown is a document of the index, with its token count, that
    passes the filter. *)
Definition accounted (index : gmap string Z) (activeDocTypeFilter : string)
    (acc : Cumulative) : Prop :=
  total acc = foldr Z.add 0%Z (map snd (breakdown acc))
  /\ Forall (fun entry =>
               index !! entry.1 = Some entry.2
               /\ matchesDocTypeFilter activeDocTypeFilter entry.1 = true)
            (breakdown acc).

(** A ranking as the path-weights artifact gives it. *)
Definition scenario_ranking : list RankingItem :=
  [ {| item_path := "a"; cumulativeTokens := 800 |};
    {| item_path := "docs"; cumulativeTokens := 0 |};
    {| item_path := "a/b"; cumulativeTokens := 2000 |} ].

End Visualize.

(** * Properties *)

(** ** Sorting by name *)
Section SortFacts.
Context {A : Type} (key : A -> string).

Lemma insert_by_perm x l : insert_by key x l ≡ₚ x :: l.
Proof.
  induction l as [| y l IH]; simpl; [done |].
  destruct (String.leb (key x) (key y)); [done |].
  rewrite IH. apply Permutation_swap.
Qed.

Lemma sort_by_perm l : sort_by key l ≡ₚ l.
Proof.
  induction l as [| x l IH]; simpl; [done |].
  by rewrite insert_by_perm, IH.
Qed.

Lemma elem_of_sort_by x l : x ∈ sort_by key l <-> x ∈ l.
Proof. by rewrite sort_by_perm. Qed.

Lemma length_sort_by l : length (sort_by key l) = length l.
Proof. by rewrite sort_by_perm. Qed.

Lemma insert_by_sorted x l :
  Sorted (key_le key) l -> Sorted (key_le key) (insert_by key x l).
Proof.
  induction 1 as [| y l Hl IH Hhd]; simpl.
  - repeat constructor.
  - destruct (String.leb (key x) (key y)) eqn:Hxy.
    + repeat constructor; done.
    + constructor; [done |].
      assert (key_le key y x) as Hyx.
      { destruct (String.leb_total (key x) (key y)); [congruence | done]. }
      destruct Hhd as [| z l' Hyz]; simpl.
      * by constructor.
      * destruct (String.leb (key x) (key z)); by constructor.
Qed.

(** The result of [sort_by] is in ascending order of the keys. *)
Lemma sort_by_sorted l : Sorted (key_le key) (sort_by key l).
Proof.
  induction l as [| x l IH]; simpl; [constructor |].
  by apply insert_by_sorted.
Qed.
End SortFacts.

(** Replacing an element by one with the same key leaves every other element
    of the sorted list in place. *)
Lemma insert_by_split {A : Type} (key : A -> string) (x x' : A) (l : list A) :
  key x = key x' ->
  exists s1 s2, insert_by key x l = s1 ++ x :: s2
    /\ insert_by key x' l = s1 ++ x' :: s2.
Proof.
  intros Hkey. induction l as [| y l (s1 & s2 & IH1 & IH2)]; simpl.
  - by exists [], [].
  - rewrite <- Hkey. destruct (String.leb (key x) (key y)).
    + by exists [], (y :: l).
    + exists (y :: s1), s2. by rewrite IH1, IH2.
Qed.

Lemma insert_by_replace {A : Type} (key : A -> string) (x x' y : A)
    (s1 s2 : list A) :
  key x = key x' ->
  exists t1 t2, insert_by key y (s1 ++ x :: s2) = t1 ++ x :: t2
    /\ insert_by key y (s1 ++ x' :: s2) = t1 ++ x' :: t2.
Proof.
  intros Hkey. induction s1 as [| z s1 (t1 & t2 & IH1 & IH2)]; simpl.
  - rewrite <- Hkey. destruct (String.leb (key y) (key x)).
    + by exists [y], s2.
    + by exists [], (insert_by key y s2).
  - destruct (String.leb (key y) (key z)).
    + by exists (y :: z :: s1), s2.
    + exists (z :: t1), t2. by rewrite IH1, IH2.
Qed.

Lemma sort_by_replace {A : Type} (key : A -> string) (x x' : A)
    (l1 l2 : list A) :
  key x = key x' ->
  exists s1 s2, sort_by key (l1 ++ x :: l2) = s1 ++ x :: s2
    /\ sort_by key (l1 ++ x' :: l2) = s1 ++ x' :: s2.
Proof.
  intros Hkey. induction l1 as [| y l1 (s1 & s2 & IH1 & IH2)]; simpl.
  - by apply insert_by_split.
  - rewrite IH1, IH2. by apply insert_by_replace.
Qed.

(** The order chosen by [sort_by] depends on the keys only. *)
Lemma insert_by_map {A B : Type} (key : A -> string) (key' : B -> string)
    (g : A -> B) (x : A) (l : list A) :
  (forall a, key' (g a) = key a) ->
  insert_by key' (g x) (map g l) = map g (insert_by key x l).
Proof.
  intros Hkey. induction l as [| y l IH]; simpl; [done |].
  rewrite !Hkey. destruct (String.leb (key x) (key y)); simpl; [done |].
  by rewrite IH.
Qed.

Lemma sort_by_map {A B : Type} (key : A -> string) (key' : B -> string)
    (g : A -> B) (l : list A) :
  (forall a, key' (g a) = key a) ->
  sort_by key' (map g l) = map g (sort_by key l).
Proof.
  intros Hkey. induction l as [| x l IH]; simpl; [done |].
  rewrite IH. by apply insert_by_map.
Qed.

(** ** Tree construction *)
Module BuildTreeFacts.
Import Tree.

Lemma dot_claude_in_SKIP_DIRS : ".claude" ∈ SKIP_DIRS.
Proof. by vm_compute. Qed.

Section Walk.
Variable tokenizer : Tokenizer.
Variable root_name : string.

(** The loop body skips every hidden directory: one named [.claude] is
    stopped by [SKIP_DIRS] before the test that exempts it. *)
Lemma visit_hidden_dir process rel entry d :
  startswith "." entry = true ->
  (visit tokenizer process rel (entry, EDir d)).2 = None.
Proof.
  intros Hdot. unfold visit. cbn [fst snd].
  case_bool_decide as Hskip; [done |].
  rewrite Hdot. cbn [andb].
  destruct (String.eqb_spec entry ".claude") as [-> | _]; [| done].
  destruct Hskip. apply dot_claude_in_SKIP_DIRS.
Qed.

Lemma process_directory_path dir_name dir rel :
  path (process_directory tokenizer root_name dir_name dir rel) = rel
  /\ type (process_directory tokenizer root_name dir_name dir rel)
     = directory.
Proof. by destruct dir as [[entries |]]. Qed.

Lemma file_node_type entry rel content :
  type (file_node tokenizer entry rel content) = file.
Proof. unfold file_node. by destruct (is_agent_doc entry). Qed.

(** Every child of a built directory was appended by the loop body. *)
Lemma process_directory_child dir_name entries rel child :
  child ∈ children (process_directory tokenizer root_name dir_name
                      (MkDir (Some entries)) rel) ->
  exists e, e ∈ entries
    /\ (visit tokenizer (process_directory tokenizer root_name) rel e).2
       = Some child.
Proof.
  cbn [process_directory children]. intros Hin.
  apply list_elem_of_omap in Hin as (r & Hr & Hsome).
  apply elem_of_sort_by, list_elem_of_In, in_map_iff in Hr
    as (e & <- & He).
  exists e. split; [by apply list_elem_of_In | done].
Qed.

(** No directory of a built tree comes from a hidden entry. *)
Lemma hidden_dirs_skipped dir_name entries rel child :
  child ∈ children (process_directory tokenizer root_name dir_name
                      (MkDir (Some entries)) rel) ->
  type child = directory ->
  exists entry d, (entry, EDir d) ∈ entries
    /\ startswith "." entry = false
    /\ path child = entry_rel_path rel entry.
Proof.
  intros Hin Hdir.
  apply process_directory_child in Hin as ([entry [d | content |]] & He & Hv).
  - exists entry, d. split; [done |].
    destruct (startswith "." entry) eqn:Hdot.
    + by rewrite visit_hidden_dir in Hv.
    + split; [done |]. unfold visit in Hv. cbn [fst snd] in Hv.
      repeat case_match; simplify_eq.
      apply process_directory_path.
  - unfold visit in Hv. cbn [fst snd] in Hv.
    case_match; simplify_eq. by rewrite file_node_type in Hdir.
  - done.
Qed.
End Walk.

(** C4 against the code: the [.claude] directory of a project is not
    recursed into.  Its name is in [SKIP_DIRS], so the walk drops it with
    its instruction file, whatever the tokenizer; the same directory under
    the name [config] is walked and kept. *)
Theorem dot_claude_is_skipped tokenizer :
  build_tree "project" project_with_dot_claude tokenizer
  = DirNode "project" "."
      [ DirNode "src" "src"
          [ FileNode "main.py" "src/main.py" false None ] false None ]
      false None
  /\ build_tree "project" project_with_config tokenizer
     = DirNode "project" "."
         [ DirNode "config" "config"
             [ FileNode "CLAUDE.md" "config/CLAUDE.md" true
                 (Some (count_tokens "house rules" tokenizer)) ]
             false None;
           DirNode "src" "src"
             [ FileNode "main.py" "src/main.py" false None ] false None ]
         false None.
Proof. split; reflexivity. Qed.

End BuildTreeFacts.

(** ** The tree filter *)
Module TreeFacts.
Import Tree.

(** Induction on a node with the hypothesis on every child. *)
Lemma Node_induction (P : Node -> Prop) :
  (forall name path d t, P (FileNode name path d t)) ->
  (forall name path children d t,
      Forall P children -> P (DirNode name path children d t)) ->
  forall node, P node.
Proof.
  intros Hfile Hdir.
  fix IH 1. intros [nm p d t | nm p ch d t].
  - apply Hfile.
  - apply Hdir. induction ch as [| c ch IHch]; constructor.
    + apply IH.
    + exact IHch.
Qed.

Lemma elem_of_flat_map {A B : Type} (f : A -> list B) (l : list A) (y : B) :
  y ∈ flat_map f l <-> exists x, x ∈ l /\ y ∈ f x.
Proof.
  rewrite list_elem_of_In, in_flat_map.
  by setoid_rewrite list_elem_of_In.
Qed.

Lemma all_nodes_self node : node ∈ all_nodes node.
Proof. destruct node; simpl; apply list_elem_of_here. Qed.

Lemma all_nodes_dir nm p ch d t x :
  x ∈ all_nodes (DirNode nm p ch d t) <->
  x = DirNode nm p ch d t \/ exists c, c ∈ ch /\ x ∈ all_nodes c.
Proof. simpl. rewrite elem_of_cons, elem_of_flat_map. tauto. Qed.

Lemma has_agent_doc_dir nm p ch d t :
  has_agent_doc (DirNode nm p ch d t) = d || existsb has_agent_doc ch.
Proof. simpl. by destruct d. Qed.

Lemma existsb_elem_of {A : Type} (f : A -> bool) (l : list A) :
  existsb f l = true <-> exists x, x ∈ l /\ f x = true.
Proof.
  rewrite existsb_exists. split; intros (x & Hx & Hf); exists x;
    (split; [by apply list_elem_of_In | done]).
Qed.

(** A subtree that holds an agent doc carries one. *)
Lemma has_agent_doc_of_node node :
  forall x, x ∈ all_nodes node -> isAgentDoc x = true ->
    has_agent_doc node = true.
Proof.
  induction node as [nm p d t | nm p ch d t IH] using Node_induction;
    intros x Hx Hdoc.
  - simpl in Hx. apply list_elem_of_singleton in Hx. subst x.
    simpl in *. by rewrite Hdoc.
  - apply all_nodes_dir in Hx as [-> | (c & Hc & Hx)].
    + simpl in *. by rewrite Hdoc.
    + rewrite has_agent_doc_dir. apply orb_true_iff. right.
      apply existsb_elem_of. exists c. split; [done |].
      rewrite Forall_forall in IH. by apply (IH c Hc x).
Qed.

(** A node that carries an agent doc is never filtered out. *)
Lemma filter_node_carrier node b :
  has_agent_doc node = true -> is_Some (filter_node node b).
Proof.
  destruct node as [nm p d t | nm p ch d t]; intros H.
  - simpl in *. destruct d; [eauto | done].
  - cbn [filter_node]. rewrite H, orb_true_r. eauto.
Qed.

(** The shape of a filtered directory. *)
Lemma filter_node_dir nm p ch d t b node' :
  filter_node (DirNode nm p ch d t) b = Some node' ->
  node' = DirNode nm p
            (omap (fun c => filter_node c
                              (has_agent_doc (DirNode nm p ch d t))) ch) d t.
Proof.
  cbn [filter_node]. case_match; [| done]. by intros [= <-].
Qed.

(** What survives without [include_all_files], and every directory that
    survives, carries an agent doc. *)
Lemma filter_node_carries node :
  forall b node', filter_node node b = Some node' ->
    b = false \/ type node = directory -> has_agent_doc node = true.
Proof.
  induction node as [nm p d t | nm p ch d t IH] using Node_induction;
    intros b node' Hf Hb.
  - simpl in *. destruct d; [done |]. destruct b; [| done].
    by destruct Hb.
  - destruct (has_agent_doc (DirNode nm p ch d t)) eqn:Hcarry; [done |].
    exfalso. cbn [filter_node] in Hf. rewrite Hcarry in Hf.
    rewrite orb_false_r in Hf.
    destruct (omap (fun c => filter_node c false) ch) as [| c' fc] eqn:Hfc;
      [by rewrite bool_decide_eq_true_2 in Hf |].
    assert (c' ∈ omap (fun c => filter_node c false) ch) as Hin
      by (rewrite Hfc; apply list_elem_of_here).
    apply list_elem_of_omap in Hin as (c & Hc & Hfc').
    rewrite Forall_forall in IH.
    pose proof (IH c Hc false c' Hfc' (or_introl eq_refl)) as Hcc.
    rewrite has_agent_doc_dir in Hcarry.
    apply orb_false_iff in Hcarry as [_ Hex].
    assert (existsb has_agent_doc ch = true) as Hex'
      by (apply existsb_elem_of; eauto).
    congruence.
Qed.

(** Filtering does not change whether a node carries an agent doc. *)
Lemma has_agent_doc_filter_node node :
  forall b node', filter_node node b = Some node' ->
    has_agent_doc node' = has_agent_doc node.
Proof.
  induction node as [nm p d t | nm p ch d t IH] using Node_induction;
    intros b node' Hf.
  - simpl in Hf. repeat case_match; by simplify_eq.
  - apply filter_node_dir in Hf. subst node'.
    rewrite Forall_forall in IH.
    assert (forall s, existsb has_agent_doc
                        (omap (fun c => filter_node c s) ch)
                      = existsb has_agent_doc ch) as Hch.
    { intros s. apply eq_true_iff_eq. rewrite !existsb_elem_of. split.
      - intros (c' & Hc' & Hdoc).
        apply list_elem_of_omap in Hc' as (c & Hc & Hfc).
        exists c. split; [done |]. by rewrite <- (IH c Hc s c' Hfc).
      - intros (c & Hc & Hdoc).
        destruct (filter_node_carrier c s Hdoc) as [c' Hfc].
        exists c'. split.
        + apply list_elem_of_omap. eauto.
        + by rewrite (IH c Hc s c' Hfc). }
    by rewrite (has_agent_doc_dir nm p (omap _ ch)), Hch,
      <- (has_agent_doc_dir nm p ch d t).
Qed.

Lemma same_node_refl x : same_node x x.
Proof. by repeat split. Qed.

(** Agent docs survive [filter_node]. *)
Lemma filter_node_keeps_docs node :
  forall b node', filter_node node b = Some node' ->
    agent_docs_kept node node'.
Proof.
  induction node as [nm p d t | nm p ch d t IH] using Node_induction;
    intros b node' Hf x Hx Hdoc.
  - assert (node' = FileNode nm p d t) as ->
      by (simpl in Hf; repeat case_match; by simplify_eq).
    exists x. split; [done | apply same_node_refl].
  - apply filter_node_dir in Hf. subst node'.
    set (s := has_agent_doc (DirNode nm p ch d t)).
    apply all_nodes_dir in Hx as [-> | (c & Hc & Hx)].
    + eexists. split; [apply all_nodes_self | by repeat split].
    + rewrite Forall_forall in IH.
      pose proof (has_agent_doc_of_node c x Hx Hdoc) as Hcarry.
      destruct (filter_node_carrier c s Hcarry) as [c' Hfc].
      destruct (IH c Hc s c' Hfc x Hx Hdoc) as (x' & Hx' & Hsame).
      exists x'. split; [| done].
      apply all_nodes_dir. right. exists c'. split; [| done].
      apply list_elem_of_omap. eauto.
Qed.

(** Every directory left by [filter_node] carries an agent doc. *)
Lemma filter_node_dirs_carry node :
  forall b node', filter_node node b = Some node' ->
    forall d, d ∈ all_nodes node' -> type d = directory ->
      has_agent_doc d = true.
Proof.
  induction node as [nm p dc t | nm p ch dc t IH] using Node_induction;
    intros b node' Hf d Hd Hdir.
  - assert (node' = FileNode nm p dc t) as ->
      by (simpl in Hf; repeat case_match; by simplify_eq).
    simpl in Hd. apply list_elem_of_singleton in Hd. by subst.
  - pose proof (filter_node_carries _ _ _ Hf (or_intror eq_refl)) as Hcarry.
    pose proof (has_agent_doc_filter_node _ _ _ Hf) as Hsame.
    apply filter_node_dir in Hf. subst node'.
    apply all_nodes_dir in Hd as [-> | (c' & Hc' & Hd)].
    + congruence.
    + apply list_elem_of_omap in Hc' as (c & Hc & Hfc).
      rewrite Forall_forall in IH. by apply (IH c Hc _ c' Hfc).
Qed.

(** [omap f] leaves a list unchanged when [f] keeps each element as is. *)
Lemma omap_fixed {A : Type} (f : A -> option A) (l : list A) :
  (forall x, x ∈ l -> f x = Some x) -> omap f l = l.
Proof.
  induction l as [| x l IH]; intros H; [done |].
  cbn. rewrite (H x) by apply list_elem_of_here.
  f_equal. apply IH. intros y Hy. apply H. by apply list_elem_of_further.
Qed.

(** What [filter_node] returns is a fixed point of [filter_node]. *)
Lemma filter_node_idempotent node :
  forall b node', filter_node node b = Some node' ->
    filter_node node' b = Some node'.
Proof.
  induction node as [nm p d t | nm p ch d t IH] using Node_induction;
    intros b node' Hf.
  - assert (node' = FileNode nm p d t) as ->
      by (simpl in Hf; repeat case_match; by simplify_eq).
    done.
  - pose proof (filter_node_carries _ _ _ Hf (or_intror eq_refl)) as Hcarry.
    pose proof (has_agent_doc_filter_node _ _ _ Hf) as Hsame.
    apply filter_node_dir in Hf. subst node'.
    rewrite Hcarry in Hsame |- *.
    cbn [filter_node]. rewrite Hsame, orb_true_r. do 2 f_equal.
    apply omap_fixed. intros c' Hc'.
    apply list_elem_of_omap in Hc' as (c & Hc & Hfc).
    rewrite Forall_forall in IH. by apply (IH c Hc true c').
Qed.

Lemma filter_tree_idempotent tree :
  filter_tree_to_agent_docs (filter_tree_to_agent_docs tree)
  = filter_tree_to_agent_docs tree.
Proof.
  unfold filter_tree_to_agent_docs at 2 3.
  destruct (filter_node tree false) as [filtered |] eqn:Hf.
  - unfold filter_tree_to_agent_docs.
    by rewrite (filter_node_idempotent _ _ _ Hf).
  - unfold filter_tree_to_agent_docs. by rewrite Hf.
Qed.

Lemma filter_tree_no_docs tree :
  has_agent_doc tree = false -> filter_tree_to_agent_docs tree = tree.
Proof.
  intros Hno. unfold filter_tree_to_agent_docs.
  destruct (filter_node tree false) as [filtered |] eqn:Hf; [| done].
  pose proof (filter_node_carries _ _ _ Hf (or_introl eq_refl)). congruence.
Qed.

(** C1, as stated, fails: with no agent doc anywhere the filter falls back
    to the unfiltered tree, and the empty root directory of that tree has
    neither a child nor an agent doc. *)
Lemma filter_sound_fails_on_empty_project : ~ filter_sound empty_project.
Proof.
  intros [_ Hdirs].
  destruct (Hdirs empty_project) as [Hch | Hdoc].
  - vm_compute. apply list_elem_of_here.
  - reflexivity.
  - by apply Hch.
  - discriminate Hdoc.
Qed.

(** C1, amended: every agent doc of a tree is present in the filtered
    tree; when the tree carries an agent doc, every directory of the
    filtered tree has a child or carries an agent doc (indeed it carries
    one); when it carries none, the filter returns the tree unchanged. *)
Theorem filter_soundness tree :
  agent_docs_kept tree (filter_tree_to_agent_docs tree)
  /\ (has_agent_doc tree = true ->
      directories_justified (filter_tree_to_agent_docs tree)
      /\ forall d, d ∈ all_nodes (filter_tree_to_agent_docs tree) ->
           type d = directory -> has_agent_doc d = true)
  /\ (has_agent_doc tree = false -> filter_tree_to_agent_docs tree = tree).
Proof.
  split; [| split].
  - unfold filter_tree_to_agent_docs.
    destruct (filter_node tree false) as [filtered |] eqn:Hf.
    + by apply (filter_node_keeps_docs tree false).
    + intros x Hx _. exists x. split; [done | apply same_node_refl].
  - intros Hcarry. unfold filter_tree_to_agent_docs.
    destruct (filter_node_carrier tree false Hcarry) as [filtered Hf].
    rewrite Hf.
    assert (forall d, d ∈ all_nodes filtered -> type d = directory ->
              has_agent_doc d = true) as Hdirs
      by apply (filter_node_dirs_carry tree false filtered Hf).
    split; [| done]. intros d Hd Hdir. right. by apply Hdirs.
  - apply filter_tree_no_docs.
Qed.

Lemma filter_soundness_sample :
  has_agent_doc sample_project = true
  /\ filter_tree_to_agent_docs sample_project
     = DirNode "project" "."
         [ FileNode "CLAUDE.md" "CLAUDE.md" true (Some 500%Z);
           FileNode "README.md" "README.md" false None;
           DirNode "src" "src"
             [ FileNode "AGENTS.md" "src/AGENTS.md" true (Some 1200%Z);
               FileNode "main.py" "src/main.py" false None ] false None ]
         false None
  /\ directories_justified (filter_tree_to_agent_docs sample_project)
  /\ has_agent_doc empty_project = false
  /\ filter_tree_to_agent_docs empty_project = empty_project.
Proof.
  split; [reflexivity |]. split; [reflexivity |].
  split.
  - apply (filter_soundness sample_project). reflexivity.
  - split; [reflexivity |].
    apply (filter_soundness empty_project). reflexivity.
Defined.

(** C8: filtering twice gives the same set of paths as filtering once. *)
Theorem filter_idempotence tree :
  path_set (filter_tree_to_agent_docs (filter_tree_to_agent_docs tree))
  = path_set (filter_tree_to_agent_docs tree).
Proof. by rewrite filter_tree_idempotent. Qed.

End TreeFacts.

(** ** Validation and merge of edge files *)
Module MergeFacts.
Import MergeEdges.

(** *** The validator against structural validity *)

Lemma type_not_allowed_string t :
  type_not_allowed (JString t) = negb (bool_decide (t ∈ EDGE_TYPES)).
Proof.
  unfold type_not_allowed. f_equal. apply eq_true_iff_eq.
  rewrite bool_decide_eq_true, !orb_true_iff, !String.eqb_eq.
  unfold EDGE_TYPES. rewrite !elem_of_cons, elem_of_nil. tauto.
Qed.

Lemma edge_errors_nil i edge :
  edge_errors i edge = [] <-> edge_ok edge = true.
Proof.
  destruct edge as [| b | n | s | items | e]; try done.
  unfold edge_errors, edge_ok, dict_has.
  destruct (dict_get "source" e), (dict_get "target" e),
    (dict_get "type" e) as [[| b | n | t | items | e'] |]; try done.
  rewrite type_not_allowed_string.
  by destruct (bool_decide (t ∈ EDGE_TYPES)).
Qed.

Lemma edges_errors_nil edges :
  forall i, edges_errors i edges = [] <-> forallb edge_ok edges = true.
Proof.
  induction edges as [| edge edges IH]; intros i; [done |].
  cbn [edges_errors forallb].
  rewrite app_nil, andb_true_iff, edge_errors_nil, IH. done.
Qed.

(** [validate_edge_file] accepts exactly the structurally valid files: it
    returns the record and no error for them, no record and at least one
    error for the others. *)
Lemma validate_edge_file_valid file :
  structurally_valid file = true ->
  exists data, file = Loaded data
    /\ validate_edge_file file = (Some data, []).
Proof.
  destruct file as [e | e | data]; try done. cbn [structurally_valid].
  intros Hok. exists data. split; [done |].
  destruct data as [| b | n | s | items | d]; try done.
  cbn [record_ok validate_edge_file] in *.
  destruct (dict_get "source" d) as [[| b | n | s | items | d'] |];
    try done.
  destruct (dict_get "edges" d) as [[| b | n | s' | edges | d'] |];
    try done.
  apply (edges_errors_nil edges 0) in Hok. by rewrite Hok.
Qed.

Lemma validate_edge_file_invalid file :
  structurally_valid file = false ->
  exists e errors, validate_edge_file file = (None, e :: errors).
Proof.
  destruct file as [e | e | data]; cbn [structurally_valid];
    [by eauto | by eauto |].
  intros Hbad.
  destruct data as [| b | n | s | items | d];
    cbn [validate_edge_file]; try by eauto.
  cbn [record_ok] in Hbad.
  destruct (dict_get "source" d) as [[| b | n | s | items | d'] |];
    cbn [app]; try by eauto.
  destruct (dict_get "edges" d) as [[| b | n | s' | edges | d'] |];
    cbn [app]; try by eauto.
  destruct (edges_errors 0 edges) as [| e errors] eqn:Herr; [| by eauto].
  apply edges_errors_nil in Herr. congruence.
Qed.

Lemma validate_edge_file_errors file :
  (validate_edge_file file).2 = [] <-> structurally_valid file = true.
Proof.
  destruct (structurally_valid file) eqn:Hv.
  - destruct (validate_edge_file_valid file Hv) as (data & _ & ->). done.
  - destruct (validate_edge_file_invalid file Hv) as (e & errors & ->).
    done.
Qed.

(** *** One iteration of the merge loop *)

Lemma merge_step_valid validate verbose st file :
  structurally_valid file.2 = true ->
  let st' := merge_step validate verbose st file in
  merged_edges st' = merged_edges st ++ record_edges file.2
  /\ files_processed (summary st') = S (files_processed (summary st))
  /\ files_valid (summary st') = S (files_valid (summary st))
  /\ files_invalid (summary st') = files_invalid (summary st)
  /\ total_edges (summary st')
     = total_edges (summary st) + length (record_edges file.2)
  /\ validation_errors (summary st') = validation_errors (summary st).
Proof.
  destruct file as [file_name content]. cbn [snd]. intros Hv.
  destruct (validate_edge_file_valid content Hv) as (data & -> & Hval).
  unfold merge_step. rewrite Hval. cbn.
  repeat split; lia.
Qed.

Lemma merge_step_invalid validate verbose st file :
  structurally_valid file.2 = false ->
  let st' := merge_step validate verbose st file in
  merged_edges st' = merged_edges st
  /\ files_processed (summary st') = S (files_processed (summary st))
  /\ files_valid (summary st') = files_valid (summary st)
  /\ files_invalid (summary st') = S (files_invalid (summary st))
  /\ total_edges (summary st') = total_edges (summary st).
Proof.
  destruct file as [file_name content]. cbn [snd]. intros Hv.
  destruct (validate_edge_file_invalid content Hv) as (e & errors & Hval).
  unfold merge_step. rewrite Hval. cbn.
  repeat split; lia.
Qed.

(** *** The whole loop *)

Lemma merge_fold validate verbose files :
  forall st,
    let st' := fold_left (merge_step validate verbose) files st in
    merged_edges st' = merged_edges st ++ edges_of files
    /\ files_processed (summary st')
       = files_processed (summary st) + length files
    /\ files_valid (summary st')
       = files_valid (summary st) + count_valid files
    /\ files_invalid (summary st')
       = files_invalid (summary st) + count_invalid files
    /\ total_edges (summary st')
       = total_edges (summary st) + length (edges_of files).
Proof.
  induction files as [| file files IH]; intros st.
  - cbn. rewrite app_nil_r. repeat split; lia.
  - cbn [fold_left].
    destruct (IH (merge_step validate verbose st file))
      as (Hm & Hp & Hv & Hi & Ht).
    cbn zeta. rewrite Hm, Hp, Hv, Hi, Ht.
    change (edges_of (file :: files))
      with (contribution file ++ edges_of files).
    change (count_valid (file :: files))
      with ((if structurally_valid file.2 then 1 else 0)
            + count_valid files).
    change (count_invalid (file :: files))
      with ((if structurally_valid file.2 then 0 else 1)
            + count_invalid files).
    cbn [length]. rewrite length_app. unfold contribution.
    destruct (structurally_valid file.2) eqn:Hfile.
    + destruct (merge_step_valid validate verbose st file Hfile)
        as (Hm1 & Hp1 & Hv1 & Hi1 & Ht1 & _).
      rewrite Hm1, Hp1, Hv1, Hi1, Ht1, <- app_assoc.
      repeat split; lia.
    + destruct (merge_step_invalid validate verbose st file Hfile)
        as (Hm1 & Hp1 & Hv1 & Hi1 & Ht1).
      rewrite Hm1, Hp1, Hv1, Hi1, Ht1. cbn [app length].
      repeat split; lia.
Qed.

Lemma count_valid_sort files :
  count_valid (sort_by fst files) = count_valid files.
Proof. unfold count_valid. by rewrite sort_by_perm. Qed.

Lemma count_invalid_sort files :
  count_invalid (sort_by fst files) = count_invalid files.
Proof. unfold count_invalid. by rewrite sort_by_perm. Qed.

(** The result of [merge_edge_files], field by field. *)
Lemma merge_loop_spec input_dir validate verbose :
  let st := merge_loop input_dir validate verbose in
  merged_edges st = edges_of (sort_by fst input_dir)
  /\ files_processed (summary st) = length input_dir
  /\ files_valid (summary st) = count_valid input_dir
  /\ files_invalid (summary st) = count_invalid input_dir
  /\ total_edges (summary st) = length (edges_of (sort_by fst input_dir)).
Proof.
  unfold merge_loop.
  destruct (merge_fold validate verbose (sort_by fst input_dir) merge_init)
    as (Hm & Hp & Hv & Hi & Ht).
  cbn zeta. rewrite Hm, Hp, Hv, Hi, Ht.
  rewrite length_sort_by, count_valid_sort, count_invalid_sort.
  done.
Qed.

Lemma count_valid_invalid files :
  count_valid files + count_invalid files = length files.
Proof.
  unfold count_valid, count_invalid.
  induction files as [| file files IH]; [done |].
  cbn [sum_list_with length]. destruct (structurally_valid file.2); lia.
Qed.

Lemma count_invalid_pos files :
  0 < count_invalid files <->
  exists file, file ∈ files /\ structurally_valid file.2 = false.
Proof.
  unfold count_invalid. induction files as [| file files IH].
  - cbn. split; [lia |]. intros (file & Hin & _).
    by apply elem_of_nil in Hin.
  - cbn [sum_list_with]. destruct (structurally_valid file.2) eqn:Hfile.
    + rewrite Nat.add_0_l, IH. split.
      * intros (f & Hin & Hf). exists f. split; [| done].
        by apply list_elem_of_further.
      * intros (f & Hin & Hf). apply elem_of_cons in Hin as [-> | Hin].
        -- congruence.
        -- eauto.
    + split; [| lia]. intros _. exists file.
      split; [apply list_elem_of_here | done].
Qed.

Lemma all_valid_counts files :
  (forall file, file ∈ files -> structurally_valid file.2 = true) ->
  count_invalid files = 0 /\ count_valid files = length files.
Proof.
  intros Hall.
  assert (count_invalid files = 0) as Hzero.
  { destruct (count_invalid files) eqn:Hc; [done |].
    assert (0 < count_invalid files) as Hpos by lia.
    apply count_invalid_pos in Hpos as (file & Hin & Hbad).
    rewrite (Hall file Hin) in Hbad. discriminate. }
  pose proof (count_valid_invalid files). lia.
Qed.

Lemma all_valid_edges files :
  (forall file, file ∈ files -> structurally_valid file.2 = true) ->
  edges_of files = flat_map (fun file => record_edges file.2) files.
Proof.
  unfold edges_of. induction files as [| file files IH]; intros Hall;
    [done |].
  cbn [flat_map]. unfold contribution at 1.
  rewrite (Hall file) by apply list_elem_of_here.
  f_equal. apply IH. intros f Hf. apply Hall. by apply list_elem_of_further.
Qed.

Lemma length_flat_map {A B : Type} (f : A -> list B) (l : list A) :
  length (flat_map f l) = sum_list_with (fun x => length (f x)) l.
Proof.
  induction l as [| x l IH]; [done |].
  cbn [flat_map sum_list_with]. by rewrite length_app, IH.
Qed.

Lemma edges_of_app files1 files2 :
  edges_of (files1 ++ files2) = edges_of files1 ++ edges_of files2.
Proof. unfold edges_of. by rewrite flat_map_app. Qed.

Lemma edges_of_cons file files :
  edges_of (file :: files) = contribution file ++ edges_of files.
Proof. done. Qed.

(** One edge that is not acceptable makes its record invalid. *)
Lemma record_ok_edge data edge :
  edge ∈ record_edges (Loaded data) -> edge_ok edge = false ->
  record_ok data = false.
Proof.
  intros Hin Hbad.
  destruct data as [| b | n | s | items | d];
    try by apply elem_of_nil in Hin.
  cbn [record_edges data_edges record_ok] in *.
  destruct (dict_get "edges" d) as [[| b | n | s | edges | d'] |];
    try by apply elem_of_nil in Hin.
  destruct (dict_get "source" d) as [[| b | n | s | items | d'] |];
    try done.
  destruct (forallb edge_ok edges) eqn:Hall; [| done].
  rewrite forallb_forall in Hall.
  rewrite (Hall edge) in Hbad by by apply list_elem_of_In.
  discriminate.
Qed.

Lemma record_ok_edges data edge :
  record_ok data = true -> edge ∈ record_edges (Loaded data) ->
  edge_ok edge = true.
Proof.
  intros Hok Hin. destruct (edge_ok edge) eqn:Hedge; [done |].
  by rewrite (record_ok_edge data edge Hin Hedge) in Hok.
Qed.

Lemma field_missing_not_ok field edge :
  field = "source" \/ field = "target" ->
  field_missing field edge = true -> edge_ok edge = false.
Proof.
  destruct edge as [| b | n | s | items | e]; try done.
  cbn [field_missing edge_ok]. intros [-> | ->] Hmiss;
    apply negb_true_iff in Hmiss; rewrite Hmiss; [done |].
  by rewrite andb_false_r.
Qed.

(** *** The properties of the specification *)

(** C2: when every file of the input directory is structurally valid, the
    merged edge list is the concatenation of the edge lists of the files
    in file-name order, its length is the sum of their lengths, no file
    is counted invalid and all of them are counted valid. *)
Theorem merge_completeness input_dir validate verbose :
  Forall (fun file => structurally_valid file.2 = true) input_dir ->
  let result := merge_edge_files input_dir validate verbose in
  let merged :=
    flat_map (fun file => record_edges file.2) (sort_by fst input_dir) in
  result.1.1 = JObject [("edges", JArray merged)]
  /\ length merged
     = sum_list_with (fun file => length (record_edges file.2)) input_dir
  /\ total_edges result.1.2 = length merged
  /\ files_invalid result.1.2 = 0
  /\ files_valid result.1.2 = length input_dir.
Proof.
  intros Hall. rewrite Forall_forall in Hall.
  destruct (merge_loop_spec input_dir validate verbose)
    as (Hm & _ & Hv & Hi & Ht).
  destruct (all_valid_counts input_dir Hall) as [Hzero Hcount].
  assert (edges_of (sort_by fst input_dir)
          = flat_map (fun file => record_edges file.2)
              (sort_by fst input_dir)) as Hedges.
  { apply all_valid_edges. intros file Hin. apply Hall.
    by apply elem_of_sort_by in Hin. }
  cbn zeta. unfold merge_edge_files. cbn [fst snd].
  rewrite Hm, Hv, Hi, Ht, Hedges, Hzero, Hcount.
  repeat split.
  rewrite length_flat_map. by rewrite sort_by_perm.
Qed.

Lemma merge_completeness_sample :
  Forall (fun file => structurally_valid file.2 = true) sample_dir
  /\ (merge_edge_files sample_dir false false).1.1
     = JObject [("edges",
                 JArray [ sample_edge "src/a.py";
                          sample_edge "docs/setup.md";
                          sample_edge "src/b.py" ])]
  /\ files_invalid (merge_edge_files sample_dir false false).1.2 = 0
  /\ files_valid (merge_edge_files sample_dir false false).1.2 = 3.
Proof.
  assert (Forall (fun file => structurally_valid file.2 = true) sample_dir)
    as Hall by (repeat constructor).
  split; [exact Hall |].
  destruct (merge_completeness sample_dir false false Hall)
    as (Hm & _ & _ & Hi & Hv).
  split; [exact Hm |]. split; [exact Hi | exact Hv].
Defined.

(** C5, as stated, fails: a record whose only edge has the empty string
    as [source] and as [target] passes the validation. *)
Lemma blank_fields_accepted : ~ rejects_blank_fields blank_record.
Proof.
  intros Hclaim. apply (Hclaim blank_edge).
  - vm_compute. apply list_elem_of_here.
  - reflexivity.
  - reflexivity.
Qed.

(** The record with the blank edge is counted valid and its edge is
    merged. *)
Example blank_fields_merged :
  merge_edge_files [("blank.json", Loaded blank_record)] true false
  = (JObject [("edges", JArray [blank_edge])],
     {| files_processed := 1; files_valid := 1; files_invalid := 0;
        total_edges := 1; validation_errors := [] |},
     []).
Proof. reflexivity. Qed.

(** C5, amended: a record containing an edge without a [source] key or
    without a [target] key fails the validation, is counted invalid and
    adds no edge to the merge; every edge of a record that passes is an
    object with the keys [source] and [target] and a [type] among
    [agent-doc], [file], [directory].  The values of [source] and
    [target] are not inspected. *)
Theorem edge_field_validation data :
  (forall edge,
      edge ∈ record_edges (Loaded data) ->
      field_missing "source" edge || field_missing "target" edge = true ->
      (validate_edge_file (Loaded data)).1 = None
      /\ (validate_edge_file (Loaded data)).2 <> []
      /\ forall validate verbose st file_name,
           let st' :=
             merge_step validate verbose st (file_name, Loaded data) in
           merged_edges st' = merged_edges st
           /\ files_invalid (summary st') = S (files_invalid (summary st))
           /\ files_valid (summary st') = files_valid (summary st))
  /\ ((validate_edge_file (Loaded data)).2 = [] ->
      forall edge, edge ∈ record_edges (Loaded data) ->
        edge_ok edge = true).
Proof.
  split.
  - intros edge Hin Hmiss.
    assert (edge_ok edge = false) as Hbad.
    { apply orb_true_iff in Hmiss as [Hmiss | Hmiss].
      - apply (field_missing_not_ok "source"); auto.
      - apply (field_missing_not_ok "target"); auto. }
    assert (structurally_valid (Loaded data) = false) as Hinvalid
      by apply (record_ok_edge data edge Hin Hbad).
    destruct (validate_edge_file_invalid _ Hinvalid) as (e & errors & Hval).
    rewrite Hval. split; [done |]. split; [done |].
    intros validate verbose st file_name.
    destruct (merge_step_invalid validate verbose st
                (file_name, Loaded data) Hinvalid)
      as (Hm & _ & Hv & Hi & _).
    done.
  - intros Hpass edge Hin.
    apply validate_edge_file_errors in Hpass.
    by apply (record_ok_edges data).
Qed.

Lemma edge_field_validation_sample :
  (validate_edge_file (Loaded record_missing_target)).1 = None
  /\ (validate_edge_file (Loaded record_missing_target)).2
     = ["Edge 0: missing 'target'"]
  /\ (validate_edge_file (Loaded (sample_record ["src/a.py"]))).2 = []
  /\ edge_ok (sample_edge "src/a.py") = true.
Proof.
  destruct (edge_field_validation record_missing_target) as [Hreject _].
  destruct (edge_field_validation (sample_record ["src/a.py"]))
    as [_ Hpass].
  split.
  - apply (Hreject edge_without_target).
    + vm_compute. apply list_elem_of_here.
    + reflexivity.
  - split; [reflexivity |]. split; [reflexivity |].
    apply Hpass.
    + reflexivity.
    + vm_compute. apply list_elem_of_here.
Defined.




(** The third scenario of the specification: three files, one of them
    without the [edges] field. *)
Example merge_command_one_invalid :
  main "edges" "edges.json"
    (Some [ ("b.json", Loaded record_missing_edges);
            ("a.json", Loaded (sample_record ["src/a.py"]));
            ("c.json", Loaded (sample_record [])) ])
    false false
  = {| exit_code := 1;
       written := Some (JObject [("edges", JArray [sample_edge "src/a.py"])]);
       diagnostics :=
         [ "Files processed: 3"; "Files valid: 2"; "Files invalid: 1";
           "Total edges: 1"; "Output written to: edges.json" ] |}.
Proof. reflexivity. Qed.

(** C10: the summary returned by the merge is consistent: the files
    processed are the valid ones plus the invalid ones, and [total_edges]
    is the length of the merged edge list that is returned. *)
Theorem summary_consistency input_dir validate verbose :
  let result := merge_edge_files input_dir validate verbose in
  files_processed result.1.2
  = files_valid result.1.2 + files_invalid result.1.2
  /\ exists edges,
       result.1.1 = JObject [("edges", JArray edges)]
       /\ total_edges result.1.2 = length edges.
Proof.
  destruct (merge_loop_spec input_dir validate verbose)
    as (Hm & Hp & Hv & Hi & Ht).
  cbn zeta. unfold merge_edge_files. cbn [fst snd].
  rewrite Hp, Hv, Hi, Ht, Hm. split.
  - by rewrite count_valid_invalid.
  - by eexists.
Qed.

End MergeFacts.

(** ** Cumulative tokens and thresholds *)
Module VisualizeFacts.
Import Visualize.
Local Open Scope Z_scope.

Lemma split_slash_nonempty s : split_slash s <> [].
Proof.
  destruct s as [| c r]; [done |]. simpl.
  destruct (Ascii.eqb c "/"); [done |]. by destruct (split_slash r).
Qed.

(** Splitting at a slash splits the list of segments. *)
Lemma split_slash_app P R :
  split_slash (P +:+ "/" +:+ R) = split_slash P ++ split_slash R.
Proof.
  change ("/" +:+ R) with (String "/" R).
  induction P as [| c P IH]; [done |].
  change (String c P +:+ String "/" R)
    with (String c (P +:+ String "/" R)).
  cbn [split_slash].
  destruct (Ascii.eqb c "/"); [by rewrite IH |].
  rewrite IH. pose proof (split_slash_nonempty P).
  by destruct (split_slash P).
Qed.

Section Aggregation.
Variable agentDocTokens : gmap string Z.
Variable activeDocTypeFilter : string.
Hypothesis Hnonneg : tokens_nonneg agentDocTokens.

Local Abbreviation counted :=
  (counted agentDocTokens activeDocTypeFilter).
Local Abbreviation add_counted :=
  (add_counted agentDocTokens activeDocTypeFilter).
Local Abbreviation walk_step :=
  (walk_step agentDocTokens activeDocTypeFilter).

Lemma counted_nonneg p tokens : counted p = Some tokens -> 0 <= tokens.
Proof.
  unfold Visualize.counted.
  destruct (agentDocTokens !! p) as [t |] eqn:Hp; [| done].
  destruct (matchesDocTypeFilter activeDocTypeFilter p); [| done].
  intros [= <-]. by apply (Hnonneg p).
Qed.

Lemma extends_refl acc : extends acc acc.
Proof. by split. Qed.

Lemma extends_trans acc1 acc2 acc3 :
  extends acc1 acc2 -> extends acc2 acc3 -> extends acc1 acc3.
Proof.
  intros [Ht1 Hb1] [Ht2 Hb2]. split; [lia | by etransitivity].
Qed.

Lemma add_counted_extends p acc : extends acc (add_counted p acc).
Proof.
  unfold Visualize.add_counted.
  destruct (counted p) as [tokens |] eqn:Hp; [| apply extends_refl].
  apply counted_nonneg in Hp. split; cbn; [lia |].
  by apply prefix_app_r.
Qed.

Lemma walk_step_extends st part : extends st.2 (walk_step st part).2.
Proof.
  destruct st as [currentPath acc]. unfold Visualize.walk_step.
  destruct (String.eqb part "."); [apply extends_refl |].
  cbn [snd]. eapply extends_trans; apply add_counted_extends.
Qed.

Lemma walk_extends parts :
  forall st, extends st.2 (fold_left walk_step parts st).2.
Proof.
  induction parts as [| part parts IH]; intros st;
    [apply extends_refl |].
  cbn [fold_left]. eapply extends_trans; [apply walk_step_extends |].
  apply IH.
Qed.

Lemma getCumulativeTokens_split path :
  getCumulativeTokens agentDocTokens activeDocTypeFilter path
  = (fold_left walk_step (split_slash path)
       (".", fold_left (add_root agentDocTokens activeDocTypeFilter)
               ["CLAUDE.md"; "AGENTS.md"]
               {| total := 0; breakdown := [] |})).2.
Proof.
  unfold getCumulativeTokens.
  by destruct (String.eqb_spec path ".") as [-> |].
Qed.

Lemma ancestor_extends P Q :
  is_ancestor P Q ->
  extends (getCumulativeTokens agentDocTokens activeDocTypeFilter P)
          (getCumulativeTokens agentDocTokens activeDocTypeFilter Q).
Proof.
  intros [-> | (rest & ->)]; rewrite !getCumulativeTokens_split.
  - cbn [split_slash Ascii.eqb fold_left].
    change (walk_step ?st ".") with st.
    apply (walk_extends (split_slash Q) (".", _)).
  - rewrite split_slash_app, fold_left_app. apply walk_extends.
Qed.
End Aggregation.

(** C3: over an index of non-negative token counts and under one filter,
    the cumulative total of a path is at least the total of each of its
    ancestors; the breakdown of the ancestor is the beginning of the
    breakdown of the path. *)
Theorem aggregation_monotonicity agentDocTokens activeDocTypeFilter P Q :
  tokens_nonneg agentDocTokens ->
  is_ancestor P Q ->
  total (getCumulativeTokens agentDocTokens activeDocTypeFilter P)
  <= total (getCumulativeTokens agentDocTokens activeDocTypeFilter Q)
  /\ breakdown (getCumulativeTokens agentDocTokens activeDocTypeFilter P)
     `prefix_of`
     breakdown (getCumulativeTokens agentDocTokens activeDocTypeFilter Q).
Proof. intros Hnonneg Hanc. by apply ancestor_extends. Qed.

Lemma scenario_index_nonneg : tokens_nonneg scenario_index.
Proof.
  unfold tokens_nonneg, scenario_index.
  repeat (apply map_Forall_insert_2; [lia |]). apply map_Forall_empty.
Defined.

Lemma aggregation_monotonicity_scenario :
  tokens_nonneg scenario_index
  /\ is_ancestor "a" "a/b"
  /\ total (getCumulativeTokens scenario_index "all" "a") = 800
  /\ total (getCumulativeTokens scenario_index "all" "a/b") = 2000
  /\ total (getCumulativeTokens scenario_index "all" "a")
     <= total (getCumulativeTokens scenario_index "all" "a/b").
Proof.
  assert (is_ancestor "a" "a/b") as Hanc by (right; by exists "b").
  split; [exact scenario_index_nonneg |]. split; [exact Hanc |].
  split; [by vm_compute |]. split; [by vm_compute |].
  apply (aggregation_monotonicity scenario_index "all" "a" "a/b"
           scenario_index_nonneg Hanc).
Defined.

(** *** Thresholds *)

Ltac case_numbers :=
  repeat match goal with
    | |- context [(?a =? ?b)] => destruct (Z.eqb_spec a b)
    | |- context [(?a >=? ?b)] =>
        rewrite (Z.geb_leb a b); destruct (Z.leb_spec b a)
    | |- context [(?a <? ?b)] => destruct (Z.ltb_spec a b)
    end.

(** Whatever the two fields hold, [updateThresholds] leaves the green
    ceiling below the yellow one. *)
Lemma updateThresholds_ordered pg :
  bands_ordered (tokenThresholds (updateThresholds pg)).
Proof.
  unfold bands_ordered, updateThresholds, parseInt_or.
  destruct (threshold_green pg) as [g |],
    (threshold_yellow pg) as [y |]; cbn; case_numbers; cbn;
    case_numbers; lia.
Qed.

Lemma edit_ordered g y pg : bands_ordered (tokenThresholds (edit g y pg)).
Proof. apply updateThresholds_ordered. Qed.

Lemma edits_ordered pg later :
  bands_ordered (tokenThresholds pg) ->
  rtc edit_step pg later -> bands_ordered (tokenThresholds later).
Proof.
  intros Hpg Hsteps. induction Hsteps as [| pg1 pg2 pg3 Hstep _ IH];
    [done |].
  apply IH. destruct Hstep as (g & y & ->). apply edit_ordered.
Qed.

(** The three bands of [getTokenColor]. *)
Lemma getTokenColor_bands th tokens :
  (getTokenColor th tokens = "var(--green)" <-> tokens < green th)
  /\ (getTokenColor th tokens = "var(--yellow)" <->
        green th <= tokens < yellow th)
  /\ (getTokenColor th tokens = "var(--red)" <->
        green th <= tokens /\ yellow th <= tokens).
Proof.
  unfold getTokenColor. case_numbers; repeat split; (done || lia).
Qed.



End VisualizeFacts.


(** * Further properties of the code *)

(** ** The order of names *)

Lemma string_leb_trans s1 s2 s3 :
  String.leb s1 s2 = true -> String.leb s2 s3 = true ->
  String.leb s1 s3 = true.
Proof.
  unfold String.leb. revert s2 s3.
  induction s1 as [| c1 s1 IH]; intros [| c2 s2] [| c3 s3]; simpl;
    try done.
  unfold Ascii.compare.
  destruct (N.compare_spec (N_of_ascii c1) (N_of_ascii c2)) as [H12 | H12 | H12],
    (N.compare_spec (N_of_ascii c2) (N_of_ascii c3)) as [H23 | H23 | H23];
    try done;
    destruct (N.compare_spec (N_of_ascii c1) (N_of_ascii c3))
      as [H13 | H13 | H13];
    try done; try lia; apply IH.
Qed.

Lemma lookup_map {A B : Type} (f : A -> B) (l : list A) (i : nat) :
  map f l !! i = f <$> l !! i.
Proof.
  revert i. induction l as [| x l IH]; intros [| i]; simpl; done.
Qed.

Section SortUnique.
Context {A : Type} (key : A -> string).

Lemma key_le_trans x y z : key_le key x y -> key_le key y z -> key_le key x z.
Proof. apply string_leb_trans. Qed.

Lemma sort_by_strongly_sorted l : StronglySorted (key_le key) (sort_by key l).
Proof.
  apply Sorted.Sorted_StronglySorted; [| apply sort_by_sorted].
  intros x y z. apply key_le_trans.
Qed.

(** Two listings of the same entries under distinct names sort to the same
    list. *)
Lemma sort_by_listing_order l1 l2 :
  NoDup (map key l1) -> l1 ≡ₚ l2 -> sort_by key l1 = sort_by key l2.
Proof.
  intros Hnodup Hperm.
  apply (StronglySorted_unique_strong (key_le key));
    try apply sort_by_strongly_sorted.
  - intros x y Hx Hy Hxy Hyx.
    apply elem_of_sort_by in Hx, Hy. rewrite <- Hperm in Hy.
    pose proof (String.leb_antisym _ _ Hxy Hyx) as Hkey.
    apply list_elem_of_lookup in Hx as [i Hi], Hy as [j Hj].
    assert (i = j) as Hij.
    { apply (NoDup_lookup (map key l1) i j (key x)); [done | |].
      - by rewrite lookup_map, Hi.
      - by rewrite Hkey, lookup_map, Hj. }
    congruence.
  - by rewrite !sort_by_perm.
Qed.
End SortUnique.

(** ** The built tree and its summary *)
Module TreeExtra.
Import Tree.
Import TreeFacts.
Import BuildTreeFacts.

(** Induction on a directory with the hypothesis on every subdirectory. *)
Lemma Dir_induction (P : Dir -> Prop) :
  P (MkDir None) ->
  (forall entries,
      Forall (fun e => forall d, e.2 = EDir d -> P d) entries ->
      P (MkDir (Some entries))) ->
  forall dir, P dir.
Proof.
  intros Hnone Hsome.
  fix IH 1. intros [[entries |]]; [| exact Hnone].
  apply Hsome. induction entries as [| [entry e] entries IHe];
    constructor; [| exact IHe].
  destruct e as [d | content |]; intros d' Hd; simpl in Hd;
    [| discriminate | discriminate].
  injection Hd as <-. apply IH.
Qed.

Lemma collect_agent_docs_none node :
  has_agent_doc node = false -> collect_agent_docs node = [].
Proof.
  induction node as [nm p d t | nm p ch d t IH] using Node_induction.
  - simpl. by destruct d.
  - rewrite has_agent_doc_dir. intros Hno.
    apply orb_false_iff in Hno as [-> Hch]. cbn [collect_agent_docs isAgentDoc].
    cbn [app]. induction ch as [| c ch IHch]; [done |].
    cbn [existsb] in Hch. apply orb_false_iff in Hch as [Hc Hch].
    apply Forall_cons in IH as [IHc IH].
    cbn [flat_map]. by rewrite (IHc Hc), (IHch IH Hch).
Qed.

Lemma collect_agent_docs_filter_node node :
  forall b node', filter_node node b = Some node' ->
    collect_agent_docs node' = collect_agent_docs node.
Proof.
  induction node as [nm p d t | nm p ch d t IH] using Node_induction;
    intros b node' Hf.
  - assert (node' = FileNode nm p d t) as ->
      by (simpl in Hf; repeat case_match; by simplify_eq).
    done.
  - apply filter_node_dir in Hf. subst node'.
    generalize (has_agent_doc (DirNode nm p ch d t)). intros s.
    cbn [collect_agent_docs isAgentDoc path tokens]. f_equal.
    induction ch as [| c ch IHch]; [done |].
    apply Forall_cons in IH as [IHc IH].
    cbn [omap list_omap flat_map].
    destruct (filter_node c s) as [c' |] eqn:Hc.
    + cbn [flat_map]. by rewrite (IHc s c' Hc), <- (IHch IH).
    + rewrite <- (IHch IH). rewrite collect_agent_docs_none; [done |].
      destruct (has_agent_doc c) eqn:Hdoc; [| done].
      destruct (filter_node_carrier c s Hdoc) as [c' Hc']. congruence.
Qed.

Lemma collect_filter_tree tree :
  collect_agent_docs (filter_tree_to_agent_docs tree)
  = collect_agent_docs tree.
Proof.
  unfold filter_tree_to_agent_docs.
  destruct (filter_node tree false) as [filtered |] eqn:Hf; [| done].
  by apply (collect_agent_docs_filter_node tree false).
Qed.

(** X1: the list of agent docs is the same, entry for entry, on the filtered
    tree as on the full tree. *)
Theorem filter_keeps_agent_doc_list tree :
  collect_agent_docs (filter_tree_to_agent_docs tree)
  = collect_agent_docs tree.
Proof. apply collect_filter_tree. Qed.

Lemma collect_agent_docs_map tree :
  collect_agent_docs tree
  = map (fun node =>
           {| doc_path := path node;
              doc_tokens := match tokens node with
                            | Some t => t
                            | None => 0%Z
                            end |})
        (List.filter isAgentDoc (all_nodes tree)).
Proof.
  induction tree as [nm p d t | nm p ch d t IH] using Node_induction.
  - simpl. by destruct d.
  - cbn [collect_agent_docs all_nodes List.filter].
    assert (flat_map collect_agent_docs ch
            = map (fun node =>
                     {| doc_path := path node;
                        doc_tokens := match tokens node with
                                      | Some t => t
                                      | None => 0%Z
                                      end |})
                  (List.filter isAgentDoc (flat_map all_nodes ch))) as ->.
    { induction ch as [| c ch IHch]; [done |].
      apply Forall_cons in IH as [IHc IH].
      cbn [flat_map]. by rewrite List.filter_app, map_app, IHc, IHch. }
    cbn [isAgentDoc path tokens]. by destruct d.
Qed.

(** X2: the list holds one entry for each flagged node of the tree, in
    depth-first order, with a missing token count read as 0; it is empty
    exactly when the tree carries no agent doc. *)
Theorem collect_agent_docs_nodes tree :
  collect_agent_docs tree
  = map (fun node =>
           {| doc_path := path node;
              doc_tokens := match tokens node with
                            | Some t => t
                            | None => 0%Z
                            end |})
        (List.filter isAgentDoc (all_nodes tree))
  /\ (collect_agent_docs tree = [] <-> has_agent_doc tree = false).
Proof.
  split; [apply collect_agent_docs_map |].
  split; [| apply collect_agent_docs_none].
  destruct (has_agent_doc tree) eqn:Hdoc; [| done].
  intros Hnil. exfalso. revert Hdoc Hnil.
  induction tree as [nm p d t | nm p ch d t IH] using Node_induction.
  - simpl. by destruct d.
  - rewrite has_agent_doc_dir. cbn [collect_agent_docs isAgentDoc].
    destruct d; [done |]. cbn [orb app]. intros Hex Hnil.
    apply existsb_elem_of in Hex as (c & Hc & Hdoc).
    rewrite Forall_forall in IH. apply (IH c Hc Hdoc).
    apply list_elem_of_In in Hc.
    destruct (collect_agent_docs c) as [| e es] eqn:Hcol; [done |].
    assert (In e (flat_map collect_agent_docs ch)) as Hin.
    { apply in_flat_map. exists c. split; [done |]. rewrite Hcol. by left. }
    by rewrite Hnil in Hin.
Qed.

Lemma all_nodes_children node x :
  x ∈ all_nodes node <->
  x = node \/ exists c, c ∈ children node /\ x ∈ all_nodes c.
Proof.
  destruct node as [nm p d t | nm p ch d t].
  - simpl. rewrite list_elem_of_singleton. split; [by left |].
    intros [-> | (c & Hc & _)]; [done | by apply elem_of_nil in Hc].
  - apply all_nodes_dir.
Qed.

Lemma names_nonempty_entries entries e :
  names_nonempty (MkDir (Some entries)) -> e ∈ entries ->
  e.1 <> "" /\ forall d, e.2 = EDir d -> names_nonempty d.
Proof.
  induction entries as [| e' entries IH]; intros Hnames Hin;
    [by apply elem_of_nil in Hin |].
  cbn [names_nonempty foldr] in Hnames. destruct Hnames as (Hne & Hsub & Hrest).
  apply elem_of_cons in Hin as [-> | Hin]; [| by apply IH].
  split; [done |]. intros d Hd. by rewrite Hd in Hsub.
Qed.

Lemma lower_ascii_idempotent c : lower_ascii (lower_ascii c) = lower_ascii c.
Proof. destruct c as [[] [] [] [] [] [] [] []]; reflexivity. Qed.

Lemma lower_idempotent s : lower (lower s) = lower s.
Proof.
  induction s as [| c s IH]; [done |].
  simpl. by rewrite lower_ascii_idempotent, IH.
Qed.

(** The extension test does not depend on the case of the file name. *)
Lemma should_skip_file_ignores_case filename :
  should_skip_file (lower filename) = should_skip_file filename.
Proof. unfold should_skip_file. by rewrite lower_idempotent. Qed.

Lemma agent_doc_not_skipped filename :
  is_agent_doc filename = true -> should_skip_file filename = false.
Proof.
  unfold is_agent_doc, AGENT_DOC_PATTERNS. intros Hdoc.
  apply bool_decide_eq_true in Hdoc.
  rewrite !elem_of_union, !elem_of_singleton in Hdoc.
  destruct Hdoc as [[[-> | ->] | ->] | ->]; by vm_compute.
Qed.

(** X3: no agent doc name has a skipped extension: the extension filter never
    drops an instruction file. *)
Theorem agent_doc_never_skipped filename :
  is_agent_doc filename = true -> should_skip_file filename = false.
Proof. apply agent_doc_not_skipped. Qed.

Lemma agent_doc_never_skipped_sample :
  is_agent_doc "AGENTS.md" = true /\ should_skip_file "AGENTS.md" = false.
Proof.
  split; [by vm_compute |].
  apply (agent_doc_never_skipped "AGENTS.md"). by vm_compute.
Defined.

Section Built.
Variable tokenizer : Tokenizer.
Variable root_name : string.

Local Abbreviation process := (process_directory tokenizer root_name).

Lemma file_node_fields entry rel content :
  exists t, file_node tokenizer entry rel content
            = FileNode entry rel (is_agent_doc entry) t
    /\ (if is_agent_doc entry
        then exists n, t = Some n /\ (0 <= n)%Z
        else t = None).
Proof.
  unfold file_node. destruct (is_agent_doc entry); eexists; (split; [done |]).
  - eexists. split; [done |]. destruct content; [| done].
    unfold count_tokens. lia.
  - done.
Qed.

(** What the loop body appends for an entry. *)
Lemma visit_child rel e child :
  (visit tokenizer process rel e).2 = Some child ->
  (exists d, e.2 = EDir d
     /\ child = process e.1 d (entry_rel_path rel e.1)
     /\ children child <> [])
  \/ (exists content, e.2 = EFile content
        /\ should_skip_file e.1 = false
        /\ child = file_node tokenizer e.1 (entry_rel_path rel e.1) content).
Proof.
  destruct e as [entry [d | content |]]; unfold visit; cbn [fst snd].
  - repeat case_match; try done. intros [= <-]. left. exists d.
    split; [done |]. split; [done |]. congruence.
  - case_match; [done |]. intros [= <-]. right. by exists content.
  - done.
Qed.

(** Every node of a built tree is a plain directory node or the node of a
    file that passed the extension filter. *)
Lemma built_node_shape dir :
  forall dir_name rel x, x ∈ all_nodes (process dir_name dir rel) ->
    (exists nm p ch, x = DirNode nm p ch false None)
    \/ (exists entry p content,
          x = file_node tokenizer entry p content
          /\ should_skip_file entry = false).
Proof.
  induction dir as [| entries IH] using Dir_induction;
    intros dir_name rel x Hx.
  - simpl in Hx. apply list_elem_of_singleton in Hx. left. eauto.
  - apply all_nodes_children in Hx as [-> | (c & Hc & Hx)]; [left; eauto |].
    apply process_directory_child in Hc as (e & He & Hv).
    apply visit_child in Hv as [(d & Hd & -> & _) | (content & _ & Hskip & ->)].
    + rewrite Forall_forall in IH. by eapply (IH e He d Hd).
    + right. destruct (file_node_fields e.1 (entry_rel_path rel e.1) content)
        as (t & Hnode & _).
      rewrite Hnode in Hx. simpl in Hx. apply list_elem_of_singleton in Hx.
      subst x. rewrite <- Hnode. eauto.
Qed.

(** Below the children of a built directory no directory is empty. *)
Lemma built_dirs_nonempty dir :
  forall dir_name rel c, c ∈ children (process dir_name dir rel) ->
    forall x, x ∈ all_nodes c -> type x = directory -> children x <> [].
Proof.
  induction dir as [| entries IH] using Dir_induction;
    intros dir_name rel c Hc x Hx Hdir.
  - by apply elem_of_nil in Hc.
  - apply process_directory_child in Hc as (e & He & Hv).
    apply visit_child in Hv
      as [(d & Hd & -> & Hne) | (content & _ & Hskip & ->)].
    + apply all_nodes_children in Hx as [-> | (c' & Hc' & Hx)]; [done |].
      rewrite Forall_forall in IH. by eapply (IH e He d Hd).
    + destruct (file_node_fields e.1 (entry_rel_path rel e.1) content)
        as (t & Hnode & _).
      rewrite Hnode in Hx. simpl in Hx. apply list_elem_of_singleton in Hx.
      by subst x.
Qed.

Lemma strongly_sorted_omap (l : list (string * option Node)) :
  StronglySorted (key_le fst) l ->
  (forall r c, r ∈ l -> r.2 = Some c -> name c = r.1) ->
  StronglySorted (key_le name) (omap snd l).
Proof.
  induction 1 as [| r l Hl IH Hall]; intros Hname; [constructor |].
  assert (StronglySorted (key_le name) (omap snd l)) as Hrest.
  { apply IH. intros r' c Hr'. apply Hname. by apply list_elem_of_further. }
  cbn [omap list_omap]. destruct (r.2) as [c |] eqn:Hc; [| done].
  constructor; [done |].
  apply Forall_forall. intros c' Hc'.
  apply list_elem_of_omap in Hc' as (r' & Hr' & Hsome).
  unfold key_le. rewrite (Hname r c), (Hname r' c'); try done.
  - rewrite Forall_forall in Hall. by apply Hall.
  - by apply list_elem_of_further.
  - apply list_elem_of_here.
Qed.

Lemma visit_name rel e child :
  e.1 <> "" ->
  (visit tokenizer process rel e).2 = Some child -> name child = e.1.
Proof.
  intros Hne Hv.
  apply visit_child in Hv as [(d & _ & -> & _) | (content & _ & _ & ->)].
  - destruct d as [[entries |]]; simpl;
      by destruct (String.eqb_spec e.1 "").
  - destruct (file_node_fields e.1 (entry_rel_path rel e.1) content)
      as (t & -> & _). done.
Qed.

(** The children of every directory of a built tree are in ascending order
    of their names. *)
Lemma built_children_sorted dir :
  names_nonempty dir ->
  forall dir_name rel x, x ∈ all_nodes (process dir_name dir rel) ->
    StronglySorted (key_le name) (children x).
Proof.
  induction dir as [| entries IH] using Dir_induction;
    intros Hnames dir_name rel x Hx.
  - simpl in Hx. apply list_elem_of_singleton in Hx. subst x. constructor.
  - apply all_nodes_children in Hx as [-> | (c & Hc & Hx)].
    + cbn [process_directory children].
      apply strongly_sorted_omap; [apply sort_by_strongly_sorted |].
      intros r c Hr Hsome.
      apply elem_of_sort_by, list_elem_of_In, in_map_iff in Hr
        as (e & <- & He).
      apply list_elem_of_In in He.
      destruct (names_nonempty_entries entries e Hnames He) as [Hne _].
      by apply (visit_name rel e c).
    + apply process_directory_child in Hc as (e & He & Hv).
      destruct (names_nonempty_entries entries e Hnames He) as [_ Hsub].
      apply visit_child in Hv
        as [(d & Hd & -> & _) | (content & _ & _ & ->)].
      * rewrite Forall_forall in IH.
        by eapply (IH e He d Hd (Hsub d Hd)).
      * destruct (file_node_fields e.1 (entry_rel_path rel e.1) content)
          as (t & Hnode & _).
        rewrite Hnode in Hx. simpl in Hx.
        apply list_elem_of_singleton in Hx. subst x. constructor.
Qed.

(** A regular file with an agent doc name is listed in the node of its
    directory, flagged, with the token count of its text, or 0 when it
    cannot be read. *)
Lemma agent_doc_listed dir_name entries rel entry content :
  (entry, EFile content) ∈ entries ->
  is_agent_doc entry = true ->
  FileNode entry (entry_rel_path rel entry) true
    (Some match content with
          | Some text => count_tokens text tokenizer
          | None => 0%Z
          end)
  ∈ children (process dir_name (MkDir (Some entries)) rel).
Proof.
  intros Hin Hdoc. cbn [process_directory children].
  apply list_elem_of_omap.
  exists (visit tokenizer process rel (entry, EFile content)). split.
  - apply elem_of_sort_by, list_elem_of_In, in_map. by apply list_elem_of_In.
  - unfold visit. cbn [fst snd].
    rewrite (agent_doc_not_skipped entry Hdoc).
    unfold file_node. by rewrite Hdoc.
Qed.
End Built.

(** X4: no directory below the root of a built tree is empty: a directory that
    ends up without children (empty, unreadable, or holding only skipped
    entries) is left out of its parent. *)
Theorem build_tree_no_empty_directory root_path_name root tokenizer :
  Forall (fun c =>
            Forall (fun x => type x = directory -> children x <> [])
                   (all_nodes c))
         (children (build_tree root_path_name root tokenizer)).
Proof.
  apply Forall_forall. intros c Hc. apply Forall_forall. intros x Hx.
  by eapply built_dirs_nonempty.
Qed.

Lemma built_nodes_flags root_path_name root tokenizer :
  Forall (fun x =>
            match type x with
            | directory => isAgentDoc x = false /\ tokens x = None
            | file =>
                isAgentDoc x = is_agent_doc (name x)
                /\ should_skip_file (name x) = false
                /\ if isAgentDoc x
                   then exists t, tokens x = Some t /\ (0 <= t)%Z
                   else tokens x = None
            end)
         (all_nodes (build_tree root_path_name root tokenizer)).
Proof.
  apply Forall_forall. intros x Hx.
  apply built_node_shape in Hx
    as [(nm & p & ch & ->) | (entry & p & content & -> & Hskip)]; [done |].
  destruct (file_node_fields tokenizer entry p content) as (t & -> & Ht).
  cbn [type name isAgentDoc tokens]. split; [done |]. split; [done |].
  by destruct (is_agent_doc entry).
Qed.

(** X5: in a built tree only files are flagged as agent docs, exactly those
    whose name is an agent doc name; a flagged node carries a non-negative
    token count and no other node carries one; no file with a skipped
    extension is present. *)
Theorem build_tree_agent_docs root_path_name root tokenizer :
  Forall (fun x =>
            match type x with
            | directory => isAgentDoc x = false /\ tokens x = None
            | file =>
                isAgentDoc x = is_agent_doc (name x)
                /\ should_skip_file (name x) = false
                /\ if isAgentDoc x
                   then exists t, tokens x = Some t /\ (0 <= t)%Z
                   else tokens x = None
            end)
         (all_nodes (build_tree root_path_name root tokenizer)).
Proof. apply built_nodes_flags. Qed.

(** X6: when no entry name is empty, the children of every directory of a
    built tree are in ascending order of their names. *)
Theorem build_tree_children_sorted root_path_name root tokenizer :
  names_nonempty root ->
  Forall (fun x => StronglySorted (key_le name) (children x))
         (all_nodes (build_tree root_path_name root tokenizer)).
Proof.
  intros Hnames. apply Forall_forall. intros x Hx.
  by eapply built_children_sorted.
Qed.

Lemma build_tree_children_sorted_sample :
  names_nonempty sample_dir
  /\ Forall (fun x => StronglySorted (key_le name) (children x))
       (all_nodes (build_tree "project" sample_dir (fun _ => []))).
Proof.
  assert (names_nonempty sample_dir) as Hnames
    by (simpl; repeat split; discriminate).
  split; [exact Hnames |].
  exact (build_tree_children_sorted "project" sample_dir (fun _ => []) Hnames).
Defined.

(** X7: a regular file with an agent doc name is always listed in the node of
    the directory that holds it, flagged, with the token count of its text,
    or 0 when the file cannot be read. *)
Theorem agent_doc_files_listed tokenizer root_name dir_name entries rel
    entry content :
  (entry, EFile content) ∈ entries ->
  is_agent_doc entry = true ->
  FileNode entry (entry_rel_path rel entry) true
    (Some match content with
          | Some text => count_tokens text tokenizer
          | None => 0%Z
          end)
  ∈ children (process_directory tokenizer root_name dir_name
                (MkDir (Some entries)) rel).
Proof. apply agent_doc_listed. Qed.

Lemma agent_doc_files_listed_sample :
  ("CLAUDE.md", EFile None) ∈ [("CLAUDE.md", EFile None)]
  /\ is_agent_doc "CLAUDE.md" = true
  /\ FileNode "CLAUDE.md" "docs/CLAUDE.md" true (Some 0%Z)
     ∈ children (process_directory (fun _ => []) "project" "docs"
                   (MkDir (Some [("CLAUDE.md", EFile None)])) "docs").
Proof.
  assert (("CLAUDE.md", EFile None) ∈ [("CLAUDE.md", EFile None)]) as Hin
    by apply list_elem_of_here.
  assert (is_agent_doc "CLAUDE.md" = true) as Hdoc by (by vm_compute).
  split; [exact Hin |]. split; [exact Hdoc |].
  exact (agent_doc_files_listed (fun _ => []) "project" "docs"
           [("CLAUDE.md", EFile None)] "docs" "CLAUDE.md" None Hin Hdoc).
Defined.

Lemma sum_bounds (l : list Z) :
  Forall (fun z => (0 <= z)%Z) l ->
  Forall (fun z => (0 <= z <= foldr Z.add 0 l)%Z) l.
Proof.
  induction 1 as [| z l Hz Hl IH]; [constructor |].
  assert (0 <= foldr Z.add 0 l)%Z as Hsum.
  { clear IH. induction Hl as [| y l Hy Hl IH]; simpl; lia. }
  cbn [foldr]. constructor; [lia |].
  eapply Forall_impl; [exact IH |]. simpl. intros y Hy. lia.
Qed.

(** X8: the summary printed and emitted by [main] does not depend on
    [--full-tree]: the flag only decides whether the tree is filtered; the
    list of agent docs, both totals and every line on the diagnostic
    stream are the same. *)
Theorem main_summary_full_tree root_path root_path_name dir output
    tokenizer :
  exists destination full filtered,
    emitted (main root_path (Directory root_path_name dir) output true
               tokenizer)
    = Some (destination, full)
    /\ emitted (main root_path (Directory root_path_name dir) output false
                  tokenizer)
       = Some (destination, filtered)
    /\ tree filtered = filter_tree_to_agent_docs (tree full)
    /\ agentDocs filtered = agentDocs full
    /\ totalAgentDocs filtered = totalAgentDocs full
    /\ totalTokens filtered = totalTokens full
    /\ stderr (main root_path (Directory root_path_name dir) output false
                 tokenizer)
       = stderr (main root_path (Directory root_path_name dir) output true
                   tokenizer).
Proof.
  unfold main. cbn zeta.
  rewrite !collect_filter_tree.
  destruct output as [output_file |]; cbn [emitted stderr];
    eexists _, _, _; repeat split; cbn;
    by rewrite ?collect_filter_tree.
Qed.


End TreeExtra.

(** ** More on validation and merge *)
Module MergeExtra.
Import MergeEdges.
Import MergeFacts.

(** X10: [validate_edge_file] returns either the loaded record with no error, or
    no record with at least one error; never both and never neither. *)
Theorem validate_edge_file_result file :
  (exists data, file = Loaded data
     /\ validate_edge_file file = (Some data, []))
  \/ (exists e errors, validate_edge_file file = (None, e :: errors)).
Proof.
  destruct (structurally_valid file) eqn:Hv.
  - left. by apply validate_edge_file_valid.
  - right. by apply validate_edge_file_invalid.
Qed.

(** *** Messages about edges *)

Lemma edge_errors_labelled i edge :
  edge_ok edge = false ->
  exists rest, ("Edge " +:+ pretty i +:+ ": " +:+ rest) ∈ edge_errors i edge.
Proof.
  destruct edge as [| b | n | s | items | e];
    try (intros _; exists "must be an object"; apply list_elem_of_here).
  unfold edge_ok, edge_errors, dict_has.
  destruct (dict_get "source" e) as [src |].
  - destruct (dict_get "target" e) as [tgt |].
    + destruct (dict_get "type" e) as [t |].
      * cbn [andb app]. intros Hty.
        assert (type_not_allowed t = true) as ->.
        { destruct t as [| b | n | t | items | e']; try done.
          rewrite type_not_allowed_string. by rewrite Hty. }
        exists "'type' must be 'agent-doc', 'file', or 'directory'".
        apply list_elem_of_here.
      * intros _. exists "missing 'type'". apply list_elem_of_here.
    + intros _. exists "missing 'target'". apply list_elem_of_here.
  - intros _. exists "missing 'source'". apply list_elem_of_here.
Qed.

Lemma edges_errors_lookup edges :
  forall k j edge msg,
    edges !! j = Some edge -> msg ∈ edge_errors (k + j) edge ->
    msg ∈ edges_errors k edges.
Proof.
  induction edges as [| e edges IH]; intros k j edge msg Hj Hmsg; [done |].
  cbn [edges_errors]. apply elem_of_app. destruct j as [| j].
  - left. simpl in Hj. injection Hj as ->. by rewrite Nat.add_0_r in Hmsg.
  - right. apply (IH (S k) j edge); [done |].
    by replace (S k + j) with (k + S j) by lia.
Qed.

(** X11: every edge of a record that is not acceptable gets a message of its
    own in the list of errors, labelled with the position of the edge:
    validation does not stop at the first problem. *)
Theorem every_bad_edge_reported d edges i edge :
  dict_get "edges" d = Some (JArray edges) ->
  edges !! i = Some edge ->
  edge_ok edge = false ->
  exists rest,
    ("Edge " +:+ pretty i +:+ ": " +:+ rest)
    ∈ (validate_edge_file (Loaded (JObject d))).2.
Proof.
  intros Hedges Hi Hbad.
  destruct (edge_errors_labelled i edge Hbad) as [rest Hrest].
  exists rest.
  assert (("Edge " +:+ pretty i +:+ ": " +:+ rest) ∈ edges_errors 0 edges)
    as Hin by by apply (edges_errors_lookup edges 0 i edge).
  cbn [validate_edge_file]. rewrite Hedges.
  set (errors := _ ++ edges_errors 0 edges).
  assert (("Edge " +:+ pretty i +:+ ": " +:+ rest) ∈ errors) as Herr
    by (apply elem_of_app; by right).
  destruct errors; [by apply elem_of_nil in Herr | done].
Qed.

Lemma every_bad_edge_reported_sample :
  dict_get "edges" mixed_members = Some (JArray mixed_edges)
  /\ mixed_edges !! 2 = Some edge_without_target
  /\ edge_ok edge_without_target = false
  /\ exists rest,
       ("Edge " +:+ pretty 2 +:+ ": " +:+ rest)
       ∈ (validate_edge_file (Loaded (JObject mixed_members))).2.
Proof.
  split; [reflexivity |]. split; [reflexivity |]. split; [reflexivity |].
  exact (every_bad_edge_reported mixed_members mixed_edges 2
           edge_without_target eq_refl eq_refl eq_refl).
Defined.

(** *** Flags *)

Lemma merge_step_quiet validate st file :
  stderr st = [] -> stderr (merge_step validate false st file) = [].
Proof.
  intros Hq. destruct file as [file_name content]. unfold merge_step.
  destruct (validate_edge_file content) as [data [| e errors]]; cbn;
    by rewrite Hq.
Qed.

Lemma merge_step_no_details verbose st file :
  validation_errors (summary (merge_step false verbose st file))
  = validation_errors (summary st).
Proof.
  destruct file as [file_name content]. unfold merge_step.
  by destruct (validate_edge_file content) as [data [| e errors]].
Qed.

Lemma merge_fold_quiet validate files :
  forall st, stderr st = [] ->
    stderr (fold_left (merge_step validate false) files st) = [].
Proof.
  induction files as [| file files IH]; intros st Hq; [done |].
  cbn [fold_left]. apply IH. by apply merge_step_quiet.
Qed.

Lemma merge_fold_no_details verbose files :
  forall st,
    validation_errors
      (summary (fold_left (merge_step false verbose) files st))
    = validation_errors (summary st).
Proof.
  induction files as [| file files IH]; intros st; [done |].
  cbn [fold_left]. by rewrite IH, merge_step_no_details.
Qed.

(** X12: the flags only change the reporting: the merged data and the four
    counters are the same for every choice of [--validate] and
    [--verbose]; without [--verbose] the merge prints nothing, and without
    [--validate] it records no validation error. *)
Theorem merge_flags_only_report input_dir validate verbose validate'
    verbose' :
  let result := merge_edge_files input_dir validate verbose in
  let result' := merge_edge_files input_dir validate' verbose' in
  result.1.1 = result'.1.1
  /\ files_processed result.1.2 = files_processed result'.1.2
  /\ files_valid result.1.2 = files_valid result'.1.2
  /\ files_invalid result.1.2 = files_invalid result'.1.2
  /\ total_edges result.1.2 = total_edges result'.1.2
  /\ (merge_edge_files input_dir validate false).2 = []
  /\ validation_errors (merge_edge_files input_dir false verbose).1.2 = [].
Proof.
  destruct (merge_loop_spec input_dir validate verbose)
    as (Hm & Hp & Hv & Hi & Ht).
  destruct (merge_loop_spec input_dir validate' verbose')
    as (Hm' & Hp' & Hv' & Hi' & Ht').
  cbn zeta. unfold merge_edge_files. cbn [fst snd].
  rewrite Hm, Hp, Hv, Hi, Ht, Hm', Hp', Hv', Hi', Ht'.
  repeat split.
  - by apply merge_fold_quiet.
  - unfold merge_loop. by rewrite merge_fold_no_details.
Qed.

(** *** The detailed report *)

Lemma dict_set_fresh {V : Type} (k : string) (v : V) (d : list (string * V)) :
  k ∉ map fst d -> dict_set k v d = d ++ [(k, v)].
Proof.
  induction d as [| [k' v'] d IH]; intros Hfresh; [done |].
  cbn [dict_set]. cbn [map fst] in Hfresh.
  apply not_elem_of_cons in Hfresh as [Hne Hfresh].
  destruct (String.eqb_spec k k') as [-> | _]; [done |].
  cbn [app]. by rewrite IH.
Qed.

Lemma merge_step_details verbose st file :
  structurally_valid file.2 = false ->
  validation_errors (summary (merge_step true verbose st file))
  = dict_set file.1 (validate_edge_file file.2).2
      (validation_errors (summary st)).
Proof.
  destruct file as [file_name content]. cbn [fst snd]. intros Hv.
  destruct (validate_edge_file_invalid content Hv) as (e & errors & Hval).
  unfold merge_step. by rewrite Hval.
Qed.

Lemma merge_fold_details verbose files :
  forall st,
    NoDup (map fst (validation_errors (summary st)) ++ map fst files) ->
    validation_errors
      (summary (fold_left (merge_step true verbose) files st))
    = validation_errors (summary st)
      ++ map (fun file => (file.1, (validate_edge_file file.2).2))
           (List.filter (fun file => negb (structurally_valid file.2))
              files).
Proof.
  induction files as [| file files IH]; intros st Hnodup.
  - cbn. by rewrite app_nil_r.
  - cbn [fold_left List.filter map] in *.
    destruct (structurally_valid file.2) eqn:Hfile; cbn [negb].
    + destruct (merge_step_valid true verbose st file Hfile)
        as (_ & _ & _ & _ & _ & Herrs).
      rewrite IH; rewrite Herrs; [done |].
      rewrite <- Permutation_middle in Hnodup.
      by apply NoDup_cons in Hnodup as [_ Hnodup].
    + pose proof (merge_step_details verbose st file Hfile) as Herrs.
      rewrite dict_set_fresh in Herrs.
      * rewrite IH; rewrite Herrs.
        -- cbn [map]. by rewrite <- app_assoc.
        -- by rewrite map_app, <- app_assoc.
      * apply NoDup_app in Hnodup as (_ & Hdisj & _).
        intros Hin. apply (Hdisj _ Hin), list_elem_of_here.
Qed.

(** X13: with [--validate], when the file names are distinct, the detailed
    report holds one entry for each invalid file, in file-name order, under
    the name of the file, with exactly the messages of the validator. *)
Theorem validation_errors_report input_dir verbose :
  NoDup (map fst input_dir) ->
  validation_errors (merge_edge_files input_dir true verbose).1.2
  = map (fun file => (file.1, (validate_edge_file file.2).2))
      (List.filter (fun file => negb (structurally_valid file.2))
         (sort_by fst input_dir)).
Proof.
  intros Hnodup. unfold merge_edge_files, merge_loop. cbn [fst snd].
  rewrite merge_fold_details; [done |].
  cbn [merge_init summary validation_errors map app].
  eapply NoDup_Permutation_proper; [| exact Hnodup].
  apply Permutation_map, sort_by_perm.
Qed.

Lemma validation_errors_report_sample :
  NoDup (map fst
           [ ("b.json", Loaded record_missing_edges);
             ("a.json", Loaded (sample_record ["src/a.py"]));
             ("c.json", NotJSON "Expecting value") ])
  /\ validation_errors
       (merge_edge_files
          [ ("b.json", Loaded record_missing_edges);
            ("a.json", Loaded (sample_record ["src/a.py"]));
            ("c.json", NotJSON "Expecting value") ] true false).1.2
     = [ ("b.json", ["Missing 'edges' field"]);
         ("c.json", ["Invalid JSON: Expecting value"]) ].
Proof.
  assert (NoDup (map fst
            [ ("b.json", Loaded record_missing_edges);
              ("a.json", Loaded (sample_record ["src/a.py"]));
              ("c.json", NotJSON "Expecting value") ])) as Hnodup.
  { apply (bool_decide_unpack _). by vm_compute. }
  split; [exact Hnodup |].
  exact (validation_errors_report _ false Hnodup).
Defined.

(** *** The order of the listing *)

(** X14: with distinct file names, the result of the merge and the outcome of
    the command do not depend on the order in which the directory lists
    its files. *)
Theorem merge_listing_order input_dir input_dir' input_dir_arg output_arg
    validate verbose :
  NoDup (map fst input_dir) ->
  input_dir ≡ₚ input_dir' ->
  merge_edge_files input_dir validate verbose
  = merge_edge_files input_dir' validate verbose
  /\ main input_dir_arg output_arg (Some input_dir) validate verbose
     = main input_dir_arg output_arg (Some input_dir') validate verbose.
Proof.
  intros Hnodup Hperm.
  assert (merge_edge_files input_dir validate verbose
          = merge_edge_files input_dir' validate verbose) as Heq.
  { unfold merge_edge_files, merge_loop.
    by rewrite (sort_by_listing_order fst input_dir input_dir'). }
  split; [done |]. unfold main. by rewrite Heq.
Qed.

Lemma merge_listing_order_sample :
  NoDup (map fst sample_dir)
  /\ sample_dir ≡ₚ rev sample_dir
  /\ merge_edge_files sample_dir true true
     = merge_edge_files (rev sample_dir) true true.
Proof.
  assert (NoDup (map fst sample_dir)) as Hnodup
    by (apply (bool_decide_unpack _); by vm_compute).
  assert (sample_dir ≡ₚ rev sample_dir) as Hperm by apply Permutation_rev.
  split; [exact Hnodup |]. split; [exact Hperm |].
  exact (proj1 (merge_listing_order sample_dir (rev sample_dir) "in" "out"
                  true true Hnodup Hperm)).
Defined.

(** *** What the merged output holds *)

(** X15: every edge of the merged output is an object with a [source], a
    [target] and an allowed [type], and is an edge of a structurally valid
    input file. *)
Theorem merged_edges_well_formed input_dir validate verbose :
  exists edges,
    (merge_edge_files input_dir validate verbose).1.1
    = JObject [("edges", JArray edges)]
    /\ Forall (fun edge =>
                 edge_ok edge = true
                 /\ exists file, file ∈ input_dir
                      /\ structurally_valid file.2 = true
                      /\ edge ∈ record_edges file.2)
              edges.
Proof.
  destruct (merge_loop_spec input_dir validate verbose) as (Hm & _).
  exists (edges_of (sort_by fst input_dir)).
  unfold merge_edge_files. cbn [fst snd]. rewrite Hm. split; [done |].
  apply Forall_forall. intros edge Hedge.
  apply list_elem_of_In, in_flat_map in Hedge as (file & Hfile & Hin).
  apply list_elem_of_In, elem_of_sort_by in Hfile.
  unfold contribution in Hin.
  destruct (structurally_valid file.2) eqn:Hv; [| done].
  apply list_elem_of_In in Hin. split; [| by exists file].
  destruct file as [file_name [e | e | data]]; try done.
  by apply (record_ok_edges data).
Qed.

(** X16: a zero exit status means that no file was rejected: every input file
    is structurally valid and the output holds all the edges of all the
    files, in file-name order. *)
Theorem exit_zero_complete input_dir_arg output_arg files validate
    verbose :
  exit_code (main input_dir_arg output_arg (Some files) validate verbose)
  = 0 ->
  Forall (fun file => structurally_valid file.2 = true) files
  /\ written (main input_dir_arg output_arg (Some files) validate verbose)
     = Some (JObject
               [("edges",
                 JArray (flat_map (fun file => record_edges file.2)
                           (sort_by fst files)))]).
Proof.
  destruct (merge_loop_spec files validate verbose)
    as (Hm & _ & _ & Hi & _).
  unfold main, merge_edge_files. cbn [exit_code written].
  rewrite Hm, Hi. intros Hzero.
  assert (count_invalid files = 0) as Hnone
    by (destruct (Nat.ltb_spec 0 (count_invalid files)); [done | lia]).
  assert (forall file, file ∈ files -> structurally_valid file.2 = true)
    as Hall.
  { intros file Hin. destruct (structurally_valid file.2) eqn:Hv; [done |].
    assert (0 < count_invalid files) as Hpos
      by (apply count_invalid_pos; eauto).
    lia. }
  split; [by apply Forall_forall |].
  rewrite (all_valid_edges (sort_by fst files)); [done |].
  intros file Hin. apply Hall. by apply elem_of_sort_by in Hin.
Qed.

Lemma exit_zero_complete_sample :
  exit_code (main "edges" "edges.json" (Some sample_dir) false false) = 0
  /\ written (main "edges" "edges.json" (Some sample_dir) false false)
     = Some (JObject
               [("edges",
                 JArray [ sample_edge "src/a.py";
                          sample_edge "docs/setup.md";
                          sample_edge "src/b.py" ])]).
Proof.
  assert (exit_code (main "edges" "edges.json" (Some sample_dir) false false)
          = 0) as Hzero by reflexivity.
  split; [exact Hzero |].
  exact (proj2 (exit_zero_complete "edges" "edges.json" sample_dir false
                  false Hzero)).
Defined.

End MergeExtra.

(** ** More on cumulative tokens, thresholds and the index *)
Module VisualizeExtra.
Import Visualize.
Import VisualizeFacts.
Local Open Scope Z_scope.

(** *** The document-type filter *)

Lemma last_app_nonempty {A : Type} (l1 l2 : list A) (d : A) :
  l2 <> [] -> List.last (l1 ++ l2) d = List.last l2 d.
Proof.
  intros Hne. induction l1 as [| x l1 IH]; [done |].
  cbn [app]. rewrite <- IH. simpl.
  destruct (l1 ++ l2) eqn:Happ; [| done].
  apply app_eq_nil in Happ as [_ ->]. done.
Qed.

(** The filter looks at the last segment of a path only. *)
Lemma matchesDocTypeFilter_last_segment flt dir file_name :
  matchesDocTypeFilter flt (dir +:+ "/" +:+ file_name)
  = matchesDocTypeFilter flt file_name.
Proof.
  unfold matchesDocTypeFilter.
  rewrite split_slash_app, last_app_nonempty; [done |].
  apply split_slash_nonempty.
Qed.

Lemma matches_claude_path flt currentPath :
  matchesDocTypeFilter flt (currentPath +:+ "/CLAUDE.md")
  = matchesDocTypeFilter flt "CLAUDE.md".
Proof. apply (matchesDocTypeFilter_last_segment flt currentPath "CLAUDE.md"). Qed.

Lemma matches_agents_path flt currentPath :
  matchesDocTypeFilter flt (currentPath +:+ "/AGENTS.md")
  = matchesDocTypeFilter flt "AGENTS.md".
Proof. apply (matchesDocTypeFilter_last_segment flt currentPath "AGENTS.md"). Qed.

(** *** The breakdown *)

Section Breakdown.
Variable index : gmap string Z.
Variable flt : string.

Local Abbreviation accounted := (Visualize.accounted index flt).

Lemma push_accounted p tokens acc :
  counted index flt p = Some tokens ->
  accounted acc -> accounted (push p tokens acc).
Proof.
  unfold counted. intros Hp [Htotal Hall].
  destruct (index !! p) as [t |] eqn:Hlook; [| done].
  destruct (matchesDocTypeFilter flt p) eqn:Hm; [| done].
  injection Hp as ->. split; cbn [push total breakdown].
  - rewrite map_app, foldr_app. cbn [map foldr snd].
    rewrite Htotal. generalize (map snd (breakdown acc)). intros l.
    induction l as [| z l IH]; cbn [foldr]; lia.
  - apply Forall_app. split; [done |]. by repeat constructor.
Qed.

Lemma add_counted_accounted p acc :
  accounted acc -> accounted (add_counted index flt p acc).
Proof.
  intros Hacc. unfold add_counted.
  destruct (counted index flt p) eqn:Hp; [| done].
  by apply push_accounted.
Qed.

Lemma add_first_accounted paths acc :
  accounted acc -> accounted (add_first index flt paths acc).
Proof.
  intros Hacc. induction paths as [| p paths IH]; [done |].
  cbn [add_first]. destruct (counted index flt p) eqn:Hp; [| done].
  by apply push_accounted.
Qed.

Lemma walk_accounted parts :
  forall st, accounted st.2 ->
    accounted (fold_left (walk_step index flt) parts st).2.
Proof.
  induction parts as [| part parts IH]; intros [currentPath acc] Hacc;
    [done |].
  cbn [fold_left]. apply IH. unfold walk_step.
  destruct (String.eqb part "."); [done |].
  cbn [snd] in *. by do 2 apply add_counted_accounted.
Qed.

Lemma getCumulativeTokens_accounted path :
  accounted (getCumulativeTokens index flt path).
Proof.
  rewrite getCumulativeTokens_split. apply (walk_accounted _ (".", _)).
  cbn [snd fold_left]. unfold add_root.
  do 2 apply add_first_accounted. split; [done | constructor].
Qed.
End Breakdown.


(** *** Filters against each other *)

Section Filters.
Variable index : gmap string Z.

Lemma matches_all p : matchesDocTypeFilter "all" p = true.
Proof. done. Qed.

Lemma matches_root flt docName :
  matchesDocTypeFilter flt ("./" +:+ docName)
  = matchesDocTypeFilter flt docName.
Proof. apply (matchesDocTypeFilter_last_segment flt "." docName). Qed.

(** One directory of the walk: what the two families add is what the
    unfiltered walk adds. *)
Lemma add_pair_split currentPath a c g :
  total a = total c + total g ->
  total (add_counted index "all" (currentPath +:+ "/AGENTS.md")
           (add_counted index "all" (currentPath +:+ "/CLAUDE.md") a))
  = total (add_counted index "claude" (currentPath +:+ "/AGENTS.md")
             (add_counted index "claude" (currentPath +:+ "/CLAUDE.md") c))
    + total (add_counted index "agents" (currentPath +:+ "/AGENTS.md")
               (add_counted index "agents" (currentPath +:+ "/CLAUDE.md") g)).
Proof.
  intros Hsplit. unfold add_counted, counted.
  rewrite !matches_all, !matches_claude_path, !matches_agents_path.
  change (matchesDocTypeFilter "claude" "CLAUDE.md") with true.
  change (matchesDocTypeFilter "claude" "AGENTS.md") with false.
  change (matchesDocTypeFilter "agents" "CLAUDE.md") with false.
  change (matchesDocTypeFilter "agents" "AGENTS.md") with true.
  destruct (index !! (currentPath +:+ "/CLAUDE.md")),
    (index !! (currentPath +:+ "/AGENTS.md")); cbn; lia.
Qed.

Lemma walk_split parts :
  forall currentPath a c g,
    total a = total c + total g ->
    total (fold_left (walk_step index "all") parts (currentPath, a)).2
    = total (fold_left (walk_step index "claude") parts (currentPath, c)).2
      + total (fold_left (walk_step index "agents") parts
                 (currentPath, g)).2.
Proof.
  induction parts as [| part parts IH]; intros currentPath a c g Hsplit;
    [done |].
  cbn [fold_left]. unfold walk_step at 2 4 6.
  destruct (String.eqb part "."); [by apply IH |].
  apply IH. by apply add_pair_split.
Qed.

Lemma root_split :
  total (fold_left (add_root index "all") ["CLAUDE.md"; "AGENTS.md"]
           {| total := 0; breakdown := [] |})
  = total (fold_left (add_root index "claude") ["CLAUDE.md"; "AGENTS.md"]
             {| total := 0; breakdown := [] |})
    + total (fold_left (add_root index "agents") ["CLAUDE.md"; "AGENTS.md"]
               {| total := 0; breakdown := [] |}).
Proof.
  cbn [fold_left]. unfold add_root, add_first, counted.
  change ("./" +:+ "CLAUDE.md") with "./CLAUDE.md".
  change ("./" +:+ "AGENTS.md") with "./AGENTS.md".
  rewrite !matches_all.
  change (matchesDocTypeFilter "claude" "./CLAUDE.md") with true.
  change (matchesDocTypeFilter "claude" "CLAUDE.md") with true.
  change (matchesDocTypeFilter "claude" "./AGENTS.md") with false.
  change (matchesDocTypeFilter "claude" "AGENTS.md") with false.
  change (matchesDocTypeFilter "agents" "./CLAUDE.md") with false.
  change (matchesDocTypeFilter "agents" "CLAUDE.md") with false.
  change (matchesDocTypeFilter "agents" "./AGENTS.md") with true.
  change (matchesDocTypeFilter "agents" "AGENTS.md") with true.
  destruct (index !! "./CLAUDE.md"), (index !! "CLAUDE.md"),
    (index !! "./AGENTS.md"), (index !! "AGENTS.md"); cbn; lia.
Qed.

(** What a filter leaves out. *)
Lemma add_counted_below flt p f a :
  tokens_nonneg index -> total f <= total a ->
  total (add_counted index flt p f) <= total (add_counted index "all" p a).
Proof.
  intros Hnonneg Hle. unfold add_counted, counted. rewrite matches_all.
  destruct (index !! p) as [t |] eqn:Hp; [| done].
  pose proof (Hnonneg p t Hp) as Ht. cbn beta in Ht.
  destruct (matchesDocTypeFilter flt p); cbn; lia.
Qed.

Lemma add_root_below flt docName f a :
  tokens_nonneg index -> total f <= total a ->
  total (add_root index flt f docName)
  <= total (add_root index "all" a docName).
Proof.
  intros Hnonneg Hle. unfold add_root, add_first, counted.
  rewrite !matches_all, matches_root.
  destruct (index !! ("./" +:+ docName)) as [t1 |] eqn:H1,
    (index !! docName) as [t2 |] eqn:H2,
    (matchesDocTypeFilter flt docName); cbn;
    try pose proof (Hnonneg _ _ H1) as Ht1;
    try pose proof (Hnonneg _ _ H2) as Ht2; cbn beta in *; lia.
Qed.

Lemma walk_below flt parts :
  tokens_nonneg index ->
  forall currentPath f a,
    total f <= total a ->
    total (fold_left (walk_step index flt) parts (currentPath, f)).2
    <= total (fold_left (walk_step index "all") parts (currentPath, a)).2.
Proof.
  intros Hnonneg.
  induction parts as [| part parts IH]; intros currentPath f a Hle;
    [done |].
  cbn [fold_left]. unfold walk_step at 2 4.
  destruct (String.eqb part "."); [by apply IH |].
  apply IH. apply add_counted_below; [done |].
  by apply add_counted_below.
Qed.
End Filters.


(** X19: over non-negative token counts no filter value gives a path a larger
    total than ['all'] does. *)
Theorem filtered_total_below_all index activeDocTypeFilter path :
  tokens_nonneg index ->
  total (getCumulativeTokens index activeDocTypeFilter path)
  <= total (getCumulativeTokens index "all" path).
Proof.
  intros Hnonneg. rewrite !getCumulativeTokens_split.
  apply walk_below; [done |]. cbn [fold_left].
  do 2 (apply add_root_below; [done |]). done.
Qed.

Lemma filtered_total_below_all_scenario :
  tokens_nonneg scenario_index
  /\ total (getCumulativeTokens scenario_index "claude" "a/b") = 800
  /\ total (getCumulativeTokens scenario_index "all" "a/b") = 2000
  /\ total (getCumulativeTokens scenario_index "claude" "a/b")
     <= total (getCumulativeTokens scenario_index "all" "a/b").
Proof.
  split; [exact scenario_index_nonneg |].
  split; [by vm_compute |]. split; [by vm_compute |].
  exact (filtered_total_below_all scenario_index "claude" "a/b"
           scenario_index_nonneg).
Defined.

Lemma walk_step_dot index flt st : walk_step index flt st "." = st.
Proof. by destruct st. Qed.

(** X20: segments that are a single dot are ignored: a path with such a segment
    in the middle or at the front gives the same total and breakdown as the
    path without it. *)
Theorem dot_segments_ignored index activeDocTypeFilter P R :
  getCumulativeTokens index activeDocTypeFilter (P +:+ "/./" +:+ R)
  = getCumulativeTokens index activeDocTypeFilter (P +:+ "/" +:+ R)
  /\ getCumulativeTokens index activeDocTypeFilter ("./" +:+ R)
     = getCumulativeTokens index activeDocTypeFilter R.
Proof.
  rewrite !getCumulativeTokens_split. split.
  - change ("/./" +:+ R) with ("/" +:+ ("." +:+ "/" +:+ R)).
    rewrite !split_slash_app, !fold_left_app.
    change (split_slash ".") with ["."]. cbn [fold_left].
    by rewrite walk_step_dot.
  - change ("./" +:+ R) with ("." +:+ "/" +:+ R).
    rewrite split_slash_app. change (split_slash ".") with ["."].
    cbn [app fold_left]. by rewrite walk_step_dot.
Qed.

(** *** Thresholds *)


(** Two non-zero entries in increasing order are taken as they are: the
    fields are left alone and become the two ceilings. *)
Lemma updateThresholds_ordered_entries g y th :
  g <> 0 -> y <> 0 -> g < y ->
  updateThresholds
    {| threshold_green := Some g; threshold_yellow := Some y;
       tokenThresholds := th |}
  = {| threshold_green := Some g; threshold_yellow := Some y;
       tokenThresholds := {| green := g; yellow := y |} |}.
Proof.
  intros Hg Hy Hlt. unfold updateThresholds, parseInt_or.
  cbn [threshold_green threshold_yellow].
  case_numbers; try done; lia.
Qed.

Lemma updateThresholds_ordered_entries_sample :
  750 <> 0 /\ 3000 <> 0 /\ 750 < 3000
  /\ updateThresholds
       {| threshold_green := Some 750; threshold_yellow := Some 3000;
          tokenThresholds := tokenThresholds initial_page |}
     = {| threshold_green := Some 750; threshold_yellow := Some 3000;
          tokenThresholds := {| green := 750; yellow := 3000 |} |}.
Proof.
  assert (750 <> 0) as Hg by lia. assert (3000 <> 0) as Hy by lia.
  assert (750 < 3000) as Hlt by lia.
  split; [exact Hg |]. split; [exact Hy |]. split; [exact Hlt |].
  exact (updateThresholds_ordered_entries 750 3000 _ Hg Hy Hlt).
Defined.

(** X22: the classification never improves when the count grows: a count below
    one classified green is green, a count above one classified red is
    red, whatever the thresholds. *)
Theorem getTokenColor_monotone th tokens tokens' :
  tokens <= tokens' ->
  (getTokenColor th tokens' = "var(--green)" ->
   getTokenColor th tokens = "var(--green)")
  /\ (getTokenColor th tokens = "var(--red)" ->
      getTokenColor th tokens' = "var(--red)").
Proof.
  intros Hle. unfold getTokenColor. case_numbers; split; (done || lia).
Qed.

Lemma getTokenColor_monotone_sample :
  1500 <= 2500
  /\ (getTokenColor {| green := 1000; yellow := 2000 |} 2500
      = "var(--green)" ->
      getTokenColor {| green := 1000; yellow := 2000 |} 1500
      = "var(--green)")
  /\ (getTokenColor {| green := 1000; yellow := 2000 |} 1500 = "var(--red)" ->
      getTokenColor {| green := 1000; yellow := 2000 |} 2500 = "var(--red)").
Proof.
  assert (1500 <= 2500) as Hle by lia.
  split; [exact Hle |].
  exact (getTokenColor_monotone {| green := 1000; yellow := 2000 |}
           1500 2500 Hle).
Defined.

(** X23: with the ceilings out of order the yellow band is empty: no count is
    classified yellow, every count at or above the green ceiling is red. *)
Theorem inverted_thresholds_no_yellow th tokens :
  yellow th <= green th ->
  getTokenColor th tokens <> "var(--yellow)"
  /\ (green th <= tokens -> getTokenColor th tokens = "var(--red)").
Proof.
  intros Hinv. unfold getTokenColor. case_numbers; split; (done || lia).
Qed.

Lemma inverted_thresholds_no_yellow_sample :
  yellow {| green := 2000; yellow := 1000 |}
  <= green {| green := 2000; yellow := 1000 |}
  /\ getTokenColor {| green := 2000; yellow := 1000 |} 1500 = "var(--green)"
  /\ getTokenColor {| green := 2000; yellow := 1000 |} 1500 <> "var(--yellow)".
Proof.
  assert (yellow {| green := 2000; yellow := 1000 |}
          <= green {| green := 2000; yellow := 1000 |}) as Hinv
    by (cbn; lia).
  split; [exact Hinv |]. split; [reflexivity |].
  exact (proj1 (inverted_thresholds_no_yellow
                  {| green := 2000; yellow := 1000 |} 1500 Hinv)).
Defined.

(** *** The index *)

Lemma fold_left_map_list {A B C : Type} (f : C -> B -> C) (g : A -> B)
    (l : list A) (c : C) :
  fold_left f (map g l) c = fold_left (fun c x => f c (g x)) l c.
Proof. revert c. induction l as [| x l IH]; intros c; [done |]. apply IH. Qed.

(** [indexTree] inserts every node under its path, in depth-first order,
    and every agent doc of the list of [tree.py] under its path. *)
Lemma indexTree_fold node :
  forall ix,
    nodeByPath (indexTree node ix)
    = fold_left (fun m x => <[path_or_dot x := x]> m) (Tree.all_nodes node)
        (nodeByPath ix)
    /\ agentDocTokens (indexTree node ix)
       = fold_left (fun m x => <[path_or_dot x := tokens_or_0 x]> m)
           (List.filter Tree.isAgentDoc (Tree.all_nodes node))
           (agentDocTokens ix).
Proof.
  induction node as [nm p d t | nm p ch d t IH]
    using TreeFacts.Node_induction; intros ix.
  - cbn. by destruct d.
  - cbn [indexTree Tree.all_nodes List.filter].
    set (ix1 := {| nodeByPath := _; agentDocTokens := _ |}).
    assert (forall ix0,
              nodeByPath (fold_left (fun ix child => indexTree child ix) ch ix0)
              = fold_left (fun m x => <[path_or_dot x := x]> m)
                  (flat_map Tree.all_nodes ch) (nodeByPath ix0)
              /\ agentDocTokens
                   (fold_left (fun ix child => indexTree child ix) ch ix0)
                 = fold_left (fun m x => <[path_or_dot x := tokens_or_0 x]> m)
                     (List.filter Tree.isAgentDoc
                        (flat_map Tree.all_nodes ch))
                     (agentDocTokens ix0)) as Hch.
    { induction ch as [| c ch IHch]; intros ix0; [done |].
      apply Forall_cons in IH as [IHc IH].
      cbn [fold_left flat_map].
      destruct (IHch IH (indexTree c ix0)) as [-> ->].
      destruct (IHc ix0) as [-> ->].
      by rewrite List.filter_app, !fold_left_app. }
    destruct (Hch ix1) as [-> ->]. subst ix1.
    cbn [nodeByPath agentDocTokens fold_left Tree.isAgentDoc].
    split; [done |]. by destruct d.
Qed.

Lemma fold_insert_is_Some {A V : Type} (key : A -> string) (val : A -> V)
    (l : list A) :
  forall (m : gmap string V) p,
    is_Some (fold_left (fun m x => <[key x := val x]> m) l m !! p)
    <-> is_Some (m !! p) \/ exists x, x ∈ l /\ key x = p.
Proof.
  induction l as [| y l IH]; intros m p; cbn [fold_left].
  - split; [by left |]. intros [H | (x & Hx & _)]; [done |].
    by apply elem_of_nil in Hx.
  - rewrite IH, lookup_insert_is_Some. split.
    + intros [[<- | [_ Hm]] | (x & Hx & Hk)].
      * right. exists y. split; [apply list_elem_of_here | done].
      * by left.
      * right. exists x. split; [by apply list_elem_of_further | done].
    + intros [Hm | (x & Hx & Hk)].
      * left. destruct (decide (key y = p)); [by left | by right].
      * apply elem_of_cons in Hx as [-> | Hx]; [left; by left |].
        right. eauto.
Qed.

(** X24: a path can be looked up in [nodeByPath] exactly when it is the path of
    a node of the tree (the empty path reading as [.]), and in
    [agentDocTokens] exactly when it is the path of a flagged node. *)
Theorem index_keys tree p :
  (is_Some (nodeByPath (page_index (Some tree)) !! p) <->
     exists x, x ∈ Tree.all_nodes tree /\ path_or_dot x = p)
  /\ (is_Some (agentDocTokens (page_index (Some tree)) !! p) <->
       exists x, x ∈ Tree.all_nodes tree /\ Tree.isAgentDoc x = true
                 /\ path_or_dot x = p).
Proof.
  cbn [page_index]. destruct (indexTree_fold tree empty_index) as [-> ->].
  rewrite !fold_insert_is_Some. cbn [empty_index nodeByPath agentDocTokens].
  rewrite !lookup_empty. split.
  - split; [intros [[? [=]] | H]; done | by right].
  - split.
    + intros [[? [=]] | (x & Hx & Hk)].
      apply list_elem_of_In, filter_In in Hx as [Hx Hdoc].
      exists x. by rewrite list_elem_of_In.
    + intros (x & Hx & Hdoc & Hk). right. exists x. split; [| done].
      apply list_elem_of_In, filter_In. by rewrite <- list_elem_of_In.
Qed.

Lemma agentDocTokens_collect tree :
  agentDocTokens (page_index (Some tree))
  = fold_left
      (fun m doc =>
         <[(if String.eqb (Tree.doc_path doc) "" then "."
            else Tree.doc_path doc) := Tree.doc_tokens doc]> m)
      (Tree.collect_agent_docs tree) ∅.
Proof.
  cbn [page_index]. destruct (indexTree_fold tree empty_index) as [_ ->].
  by rewrite TreeExtra.collect_agent_docs_map, fold_left_map_list.
Qed.

(** X25: the index of agent docs is the same whether the page is given the
    filtered tree or the full tree. *)
Theorem index_unchanged_by_filter tree :
  agentDocTokens
    (page_index (Some (Tree.filter_tree_to_agent_docs tree)))
  = agentDocTokens (page_index (Some tree)).
Proof.
  by rewrite !agentDocTokens_collect, TreeExtra.collect_filter_tree.
Qed.

Lemma fold_insert_nonneg (docs : list Tree.AgentDoc) :
  Forall (fun doc => 0 <= Tree.doc_tokens doc) docs ->
  forall m, tokens_nonneg m ->
    tokens_nonneg
      (fold_left
         (fun m doc =>
            <[(if String.eqb (Tree.doc_path doc) "" then "."
               else Tree.doc_path doc) := Tree.doc_tokens doc]> m)
         docs m).
Proof.
  induction 1 as [| doc docs Hdoc Hdocs IH]; intros m Hm; [done |].
  cbn [fold_left]. apply IH. by apply map_Forall_insert_2.
Qed.

Lemma built_docs_nonneg root_path_name root tokenizer :
  Forall (fun doc => 0 <= Tree.doc_tokens doc)
    (Tree.collect_agent_docs
       (Tree.build_tree root_path_name root tokenizer)).
Proof.
  rewrite TreeExtra.collect_agent_docs_map.
  apply Forall_forall. intros doc Hdoc.
  apply list_elem_of_In, in_map_iff in Hdoc as (x & <- & Hx).
  apply filter_In in Hx as [Hx Hflag]. apply list_elem_of_In in Hx.
  pose proof (TreeExtra.built_nodes_flags root_path_name root tokenizer)
    as Hall.
  rewrite Forall_forall in Hall. specialize (Hall x Hx).
  cbn [Tree.doc_tokens].
  destruct (Tree.type x); [destruct Hall; congruence |].
  destruct Hall as (_ & _ & Ht). rewrite Hflag in Ht.
  by destruct Ht as (t & -> & Ht).
Qed.

Lemma built_index_tokens_nonneg root_path_name root tokenizer full_tree :
  tokens_nonneg
    (agentDocTokens
       (page_index
          (Some (if full_tree : bool
                 then Tree.build_tree root_path_name root tokenizer
                 else Tree.filter_tree_to_agent_docs
                        (Tree.build_tree root_path_name root tokenizer))))).
Proof.
  assert (agentDocTokens
            (page_index
               (Some (if full_tree
                      then Tree.build_tree root_path_name root tokenizer
                      else Tree.filter_tree_to_agent_docs
                             (Tree.build_tree root_path_name root
                                tokenizer))))
          = agentDocTokens
              (page_index
                 (Some (Tree.build_tree root_path_name root tokenizer))))
    as ->.
  { destruct full_tree; [done |].
    by rewrite !agentDocTokens_collect, TreeExtra.collect_filter_tree. }
  rewrite agentDocTokens_collect.
  apply fold_insert_nonneg; [apply built_docs_nonneg |].
  apply map_Forall_empty.
Qed.

(** X26: the index that the page builds from a tree written by [tree.py], with
    or without [--full-tree], holds non-negative token counts only. *)
Theorem built_index_nonneg root_path_name root tokenizer full_tree :
  tokens_nonneg
    (agentDocTokens
       (page_index
          (Some (if full_tree : bool
                 then Tree.build_tree root_path_name root tokenizer
                 else Tree.filter_tree_to_agent_docs
                        (Tree.build_tree root_path_name root tokenizer))))).
Proof. apply built_index_tokens_nonneg. Qed.

(** X27: from the walk to the page: over the index of a tree written by
    [tree.py], the cumulative total of a path is at least the total of
    each of its ancestors, under every filter. *)
Theorem built_tree_totals_monotone root_path_name root tokenizer full_tree
    activeDocTypeFilter P Q :
  is_ancestor P Q ->
  let index :=
    agentDocTokens
      (page_index
         (Some (if full_tree : bool
                then Tree.build_tree root_path_name root tokenizer
                else Tree.filter_tree_to_agent_docs
                       (Tree.build_tree root_path_name root tokenizer)))) in
  total (getCumulativeTokens index activeDocTypeFilter P)
  <= total (getCumulativeTokens index activeDocTypeFilter Q).
Proof.
  intros Hanc index.
  apply ancestor_extends; [| done].
  apply built_index_tokens_nonneg.
Qed.

Lemma built_tree_totals_monotone_sample :
  is_ancestor "src" "src/lib"
  /\ total (getCumulativeTokens
              (agentDocTokens
                 (page_index
                    (Some (Tree.filter_tree_to_agent_docs
                             (Tree.build_tree "project" Tree.sample_dir
                                (fun text => repeat 0 (String.length text)))))))
              "all" "src")
     <= total (getCumulativeTokens
                 (agentDocTokens
                    (page_index
                       (Some (Tree.filter_tree_to_agent_docs
                                (Tree.build_tree "project" Tree.sample_dir
                                   (fun text =>
                                      repeat 0 (String.length text)))))))
                 "all" "src/lib").
Proof.
  assert (is_ancestor "src" "src/lib") as Hanc by (right; by exists "lib").
  split; [exact Hanc |].
  exact (built_tree_totals_monotone "project" Tree.sample_dir
           (fun text => repeat 0 (String.length text)) false "all"
           "src" "src/lib" Hanc).
Defined.

(** *** The heaviest paths *)

Lemma insert_desc_perm x l : insert_desc x l ≡ₚ x :: l.
Proof.
  induction l as [| y l IH]; simpl; [done |].
  destruct (cumulativeTokens x <? cumulativeTokens y); [| done].
  rewrite IH. apply Permutation_swap.
Qed.

Lemma sort_desc_perm l : sort_desc l ≡ₚ l.
Proof.
  induction l as [| x l IH]; [done |].
  cbn [sort_desc foldr]. rewrite insert_desc_perm.
  constructor. exact IH.
Qed.

Lemma insert_desc_sorted x l :
  StronglySorted (fun a b => cumulativeTokens b <= cumulativeTokens a) l ->
  StronglySorted (fun a b => cumulativeTokens b <= cumulativeTokens a)
    (insert_desc x l).
Proof.
  induction 1 as [| y l Hl IH Hall]; simpl.
  - by repeat constructor.
  - destruct (Z.ltb_spec (cumulativeTokens x) (cumulativeTokens y)).
    + constructor; [done |]. rewrite insert_desc_perm.
      constructor; [lia | done].
    + constructor; [by constructor |].
      constructor; [done |].
      eapply Forall_impl; [exact Hall |]. simpl. intros z Hz. lia.
Qed.

Lemma sort_desc_sorted l :
  StronglySorted (fun a b => cumulativeTokens b <= cumulativeTokens a)
    (sort_desc l).
Proof.
  induction l as [| x l IH]; [constructor |].
  by apply insert_desc_sorted.
Qed.

Lemma sorted_desc_lookup (l : list RankingItem) :
  StronglySorted (fun a b => cumulativeTokens b <= cumulativeTokens a) l ->
  forall i j a b, (i <= j)%nat -> l !! i = Some a -> l !! j = Some b ->
    cumulativeTokens b <= cumulativeTokens a.
Proof.
  induction 1 as [| x l Hl IH Hall]; intros i j a b Hij Hi Hj; [done |].
  destruct i as [| i], j as [| j]; simpl in *; try lia.
  - injection Hi as ->. injection Hj as ->. lia.
  - injection Hi as ->. rewrite Forall_forall in Hall.
    apply (Hall b). by apply list_elem_of_lookup_2 in Hj.
  - apply (IH i j); (done || lia).
Qed.

Lemma recalculatedPaths_elem index flt ranking x :
  x ∈ recalculatedPaths index flt ranking ->
  0 < cumulativeTokens x
  /\ cumulativeTokens x = total (getCumulativeTokens index flt (item_path x))
  /\ exists item, item ∈ ranking /\ item_path item = item_path x.
Proof.
  unfold recalculatedPaths. rewrite sort_desc_perm. intros Hx.
  apply list_elem_of_In, filter_In in Hx as [Hx Hpos].
  apply in_map_iff in Hx as (item & <- & Hitem).
  cbn [cumulativeTokens item_path] in *. split; [lia |]. split; [done |].
  exists item. by rewrite list_elem_of_In.
Qed.

(** X28: when [renderHeaviestPaths] shows rows, there are between one and ten
    of them; row [i] has rank [i + 1], a positive total that is the
    cumulative total of its path under the active filter, the colour of
    that total, and a path of the ranking; the totals never increase from
    one row to the next. *)
Theorem heaviest_paths_rows index activeDocTypeFilter tokenThresholds
    ranking rows :
  renderHeaviestPaths index activeDocTypeFilter tokenThresholds ranking
  = TopPaths rows ->
  (0 < length rows <= 10)%nat
  /\ (forall i row, rows !! i = Some row ->
        rank row = (i + 1)%nat
        /\ 0 < row_tokens row
        /\ row_tokens row
           = total (getCumulativeTokens index activeDocTypeFilter
                      (row_path row))
        /\ row_color row = getTokenColor tokenThresholds (row_tokens row)
        /\ exists items item,
             ranking = Some items /\ item ∈ items
             /\ item_path item = row_path row)
  /\ (forall i j row row',
        (i <= j)%nat -> rows !! i = Some row -> rows !! j = Some row' ->
        row_tokens row' <= row_tokens row).
Proof.
  unfold renderHeaviestPaths.
  destruct ranking as [[| item0 items] |]; try done.
  set (ranking := item0 :: items).
  destruct (recalculatedPaths index activeDocTypeFilter ranking)
    as [| top rest] eqn:Hrec; [done |].
  rewrite <- Hrec. intros Hrows.
  assert (rows
          = imap (fun index0 item =>
                    {| rank := index0 + 1;
                       row_path := item_path item;
                       row_tokens := cumulativeTokens item;
                       row_color :=
                         getTokenColor tokenThresholds
                           (cumulativeTokens item) |})
                 (take 10
                    (recalculatedPaths index activeDocTypeFilter ranking)))
    as -> by congruence.
  clear Hrows.
  set (recalculated := recalculatedPaths index activeDocTypeFilter ranking).
  assert (forall i row,
            imap (fun index0 item =>
                    {| rank := index0 + 1;
                       row_path := item_path item;
                       row_tokens := cumulativeTokens item;
                       row_color :=
                         getTokenColor tokenThresholds
                           (cumulativeTokens item) |})
                 (take 10 recalculated) !! i = Some row ->
            exists item, recalculated !! i = Some item
              /\ rank row = (i + 1)%nat
              /\ row_path row = item_path item
              /\ row_tokens row = cumulativeTokens item
              /\ row_color row
                 = getTokenColor tokenThresholds (cumulativeTokens item))
    as Hrow.
  { intros i row Hi. apply list_lookup_imap_Some in Hi as (item & Hi & ->).
    apply lookup_take_Some in Hi as [Hi _]. by exists item. }
  split; [| split].
  - rewrite length_imap, length_take. subst recalculated. rewrite Hrec.
    cbn [length]. lia.
  - intros i row Hi.
    destruct (Hrow i row Hi) as (item & Hitem & Hrank & Hpath & Htok & Hcol).
    apply list_elem_of_lookup_2, recalculatedPaths_elem in Hitem
      as (Hpos & Htotal & it & Hit & Hitpath).
    rewrite Htok, Hpath.
    split; [done |]. split; [done |]. split; [done |]. split; [done |].
    exists ranking, it. by rewrite Hitpath.
  - intros i j row row' Hij Hi Hj.
    destruct (Hrow i row Hi) as (item & Hitem & _ & _ & -> & _).
    destruct (Hrow j row' Hj) as (item' & Hitem' & _ & _ & -> & _).
    apply (sorted_desc_lookup recalculated (sort_desc_sorted _) i j);
      done.
Qed.

Lemma heaviest_paths_rows_scenario :
  renderHeaviestPaths scenario_index "all" {| green := 1000; yellow := 2000 |}
    (Some scenario_ranking)
  = TopPaths
      [ {| rank := 1; row_path := "a/b"; row_tokens := 2000;
           row_color := "var(--red)" |};
        {| rank := 2; row_path := "a"; row_tokens := 800;
           row_color := "var(--green)" |} ]
  /\ (0 < 2 <= 10)%nat.
Proof.
  assert (renderHeaviestPaths scenario_index "all"
            {| green := 1000; yellow := 2000 |} (Some scenario_ranking)
          = TopPaths
              [ {| rank := 1; row_path := "a/b"; row_tokens := 2000;
                   row_color := "var(--red)" |};
                {| rank := 2; row_path := "a"; row_tokens := 800;
                   row_color := "var(--green)" |} ]) as Hrows
    by (by vm_compute).
  split; [exact Hrows |].
  exact (proj1 (heaviest_paths_rows _ _ _ _ _ Hrows)).
Defined.

End VisualizeExtra.
